(** * sgschema: resolution of entity specs, field specs and structures

    A shallow embedding of the resolution engine of [sgschema/schema.py]
    ([Schema.resolve_entity], [Schema._resolve_field],
    [Schema.resolve_field], [Schema.resolve_structure]) together with the
    properties stated for it.

    Python values are modelled as follows.
    - [str] is [string]; [s[0]] and [s[1:]] are written out, the former
      failing with [IndexError] on the empty string.
    - the store's dictionaries are looked up only, and are [gmap]s.
    - dictionaries inside the structures handed to [resolve_structure] are
      iterated over, so they are association lists in iteration order.
    - exceptions are the left summand of [result]. *)

From Stdlib Require Import Ascii String List Arith Lia Bool.
From stdpp Require Import base option gmap strings list fin_maps.

Set Warnings "-register-all".

Local Open Scope string_scope.
Local Open Scope list_scope.

(** ** Exceptions *)

(** The messages of the [ValueError]s raised by the resolvers, with the
    values that are formatted into them. *)
Inductive message : Type :=
| unknown_entity_operation (entity_spec : string)
| not_an_entity_type (entity_spec : string)
| unknown_field_operation (entity_spec field_spec : string)
| not_a_field (field_spec entity_spec : string).

Inductive exn : Type :=
| ValueError (m : message)
| IndexError
| TypeError.

Inductive result (A : Type) : Type :=
| Ok (a : A)
| Raise (e : exn).
Arguments Ok {A} a.
Arguments Raise {A} e.

Definition bind {A B : Type} (r : result A) (k : A -> result B) : result B :=
  match r with
  | Ok a => k a
  | Raise e => Raise e
  end.

Notation "'let*' x ':=' r 'in' k" := (bind r (fun x => k))
  (at level 10, x name, r at level 100, k at level 200).

(** ** Strings *)

(** [c.isalnum()] for a one-character byte string. *)
Definition isalnum (c : ascii) : bool :=
  let n := nat_of_ascii c in
  (((48 <=? n) && (n <=? 57)) || ((65 <=? n) && (n <=? 90))
   || ((97 <=? n) && (n <=? 122)))%nat.

(** [s.split(sep)] for a one-character separator: never empty. *)
Fixpoint split (sep : ascii) (s : string) : list string :=
  match s with
  | EmptyString => [EmptyString]
  | String c r =>
      if Ascii.eqb c sep then EmptyString :: split sep r
      else match split sep r with
           | h :: t => String c h :: t
           | [] => [String c EmptyString]
           end
  end.

(** [sep.join(l)]. *)
Fixpoint join (sep : string) (l : list string) : string :=
  match l with
  | [] => EmptyString
  | [x] => x
  | x :: r => x +:+ sep +:+ join sep r
  end.

(** ** The schema store *)

(** Modelled from the spec: the field descriptor of [sgschema/field.py],
    which is not part of the sources at hand. Only the presence of a name
    among an entity's fields is ever consulted. *)
Record Field : Type := { data_type : string }.

(** Modelled from the spec: the entity type of [sgschema/entity.py], of
    which the resolvers read [fields], [field_aliases] and [field_tags]. *)
Record Entity : Type := {
  fields : gmap string Field;
  field_aliases : gmap string string;
  field_tags : gmap string (list string)
}.

Record Schema : Type := {
  entities : gmap string Entity;
  entity_aliases : gmap string string;
  entity_tags : gmap string (list string)
}.

(** The keyword arguments shared by the resolvers, with their defaults. *)
Record options : Type := {
  auto_prefix : bool;
  implicit_aliases : bool;
  strict : bool
}.

Definition default_options : options :=
  {| auto_prefix := true; implicit_aliases := true; strict := false |}.

(** [k in d] for a dictionary of the store. *)
Definition has_key {V : Type} (d : gmap string V) (k : string) : bool :=
  match d !! k with
  | Some _ => true
  | None => false
  end.

(** ** The entity resolver *)

Definition resolve_entity (self : Schema) (entity_spec : string)
    (implicit_aliases strict : bool) : result (list string) :=
  match entity_spec with
  | EmptyString => Raise IndexError
  | String op rest =>
      if Ascii.eqb op "!" then Ok [rest]
      else if Ascii.eqb op "#" then
        Ok (default [] (entity_tags self !! rest))
      else if Ascii.eqb op "$" then
        match entity_aliases self !! rest with
        | Some e => Ok [e]
        | None => Ok []
        end
      else if negb (isalnum op) then
        Raise (ValueError (unknown_entity_operation entity_spec))
      else if has_key (entities self) entity_spec then Ok [entity_spec]
      else
        match (if implicit_aliases then entity_aliases self !! entity_spec
               else None) with
        | Some e => Ok [e]
        | None =>
            if strict then Raise (ValueError (not_an_entity_type entity_spec))
            else Ok [entity_spec]
        end
  end.

(** ** The field resolver *)

Definition _resolve_field (self : Schema) (entity_spec field_spec : string)
    (o : options) : result (list string) :=
  match entities self !! entity_spec with
  | None => Raise (ValueError (not_an_entity_type entity_spec))
  | Some entity =>
      if String.eqb field_spec "id" || String.eqb field_spec "type"
      then Ok [field_spec]
      else
        match field_spec with
        | EmptyString => Raise IndexError
        | String op rest =>
            if Ascii.eqb op "!" then Ok [rest]
            else if Ascii.eqb op "#" then
              Ok (default [] (field_tags entity !! rest))
            else if Ascii.eqb op "$" then
              match field_aliases entity !! rest with
              | Some f => Ok [f]
              | None => Ok [field_spec]
              end
            else if negb (isalnum op) then
              Raise (ValueError (unknown_field_operation entity_spec field_spec))
            else if has_key (fields entity) field_spec then Ok [field_spec]
            else if auto_prefix o && has_key (fields entity) ("sg_" +:+ field_spec)
            then Ok ["sg_" +:+ field_spec]
            else
              match (if implicit_aliases o then field_aliases entity !! field_spec
                     else None) with
              | Some f => Ok [f]
              | None =>
                  if strict o
                  then Raise (ValueError (not_a_field field_spec entity_spec))
                  else Ok [field_spec]
              end
        end
  end.

(** A [for] loop over [l] threading an accumulator, stopping at the first
    exception. *)
Fixpoint for_each {A B : Type} (l : list A) (acc : B)
    (body : B -> A -> result B) : result B :=
  match l with
  | [] => Ok acc
  | x :: r => let* acc' := body acc x in for_each r acc' body
  end.

(** [xrange(0, n, 2)]. *)
Definition xrange_step2 (n : nat) : list nat :=
  map (fun k => 2 * k)%nat (seq 0 (Nat.div2 (n + 1))).

(** [enumerate(l)]. *)
Definition enumerate {A : Type} (l : list A) : list (nat * A) :=
  combine (seq 0 (length l)) l.

(** [spec_pairs] once its first entity spec has been overwritten with the
    root [entity_type]: the pair at index [i] of the split is
    [(spec_parts[i-1], spec_parts[i])]. *)
Definition spec_pairs (entity_type : string) (spec_parts : list string)
    : list (string * string) :=
  map (fun i =>
         (match i with
          | O => entity_type
          | S j => nth j spec_parts EmptyString
          end,
          nth i spec_parts EmptyString))
      (xrange_step2 (length spec_parts)).

(** The body of the loop over [spec_pairs]: the [(entity_type, field_name)]
    pairs of one hop. *)
Definition resolve_pair (self : Schema) (o : options) (p : string * string)
    : result (list (string * string)) :=
  let* entity_types :=
    resolve_entity self (fst p) (implicit_aliases o) (strict o) in
  for_each entity_types []
    (fun resolved_pairs entity_type =>
       let* names := _resolve_field self entity_type (snd p) o in
       Ok (resolved_pairs ++ map (fun field_name => (entity_type, field_name)) names)).

(** [itertools.product] applied to the pools, as the library documents it:
    the partial results are extended by each pool in turn. *)
Definition product {A : Type} (pools : list (list A)) : list (list A) :=
  fold_left
    (fun result pool => flat_map (fun x => map (fun y => x ++ [y]) pool) result)
    pools [[]].

(** The rendering of one element of the product. *)
Definition render_path (pairs : list (string * string)) : string :=
  join "."
    (map (fun ip : nat * (string * string) =>
            (match fst ip with
             | O => EmptyString
             | S _ => fst (snd ip) +:+ "."
             end) +:+ snd (snd ip))
         (enumerate pairs)).

(** [resolve_field] on a [field_spec] that is a string. *)
Definition resolve_field_str (self : Schema) (entity_type field_spec : string)
    (o : options) : result (list string) :=
  let spec_parts := split "." field_spec in
  if (length spec_parts =? 1)%nat
  then _resolve_field self entity_type field_spec o
  else
    let* resolved_pair_sets :=
      for_each (spec_pairs entity_type spec_parts) []
        (fun sets p => let* resolved_pairs := resolve_pair self o p in
                       Ok (sets ++ [resolved_pairs])) in
    Ok (map render_path (product resolved_pair_sets)).

(** A [field_spec] argument: a string, or a list or tuple of field specs. *)
Inductive field_spec_arg : Type :=
| spec_str (s : string)
| spec_seq (l : list field_spec_arg).

Fixpoint resolve_field (self : Schema) (entity_type : string)
    (field_spec : field_spec_arg) (o : options) {struct field_spec}
    : result (list string) :=
  match field_spec with
  | spec_seq l =>
      (fix loop (l : list field_spec_arg) (res : list string) :=
         match l with
         | [] => Ok res
         | x :: r =>
             let* xs := resolve_field self entity_type x o in loop r (res ++ xs)
         end) l []
  | spec_str s => resolve_field_str self entity_type s o
  end.

(** ** The structure rewriter *)

(** The values [resolve_structure] walks: scalars, lists, tuples and
    dictionaries with string keys, the latter in iteration order. *)
Inductive value : Type :=
| VNone
| VBool (b : bool)
| VInt (z : Z)
| VStr (s : string)
| VList (l : list value)
| VTuple (l : list value)
| VDict (d : list (string * value)).

(** [d.get(k)]. *)
Fixpoint dict_get {V : Type} (d : list (string * V)) (k : string) : option V :=
  match d with
  | [] => None
  | (k', v) :: r => if String.eqb k' k then Some v else dict_get r k
  end.

(** [d[k] = v]: an existing key keeps its place. *)
Fixpoint dict_set {V : Type} (d : list (string * V)) (k : string) (v : V)
    : list (string * V) :=
  match d with
  | [] => [(k, v)]
  | (k', v') :: r =>
      if String.eqb k' k then (k', v) :: r else (k', v') :: dict_set r k v
  end.

(** Truth value of a Python value. *)
Definition truthy (x : value) : bool :=
  match x with
  | VNone => false
  | VBool b => b
  | VInt z => negb (Z.eqb z 0)
  | VStr s => negb (String.eqb s EmptyString)
  | VList l | VTuple l => match l with [] => false | _ => true end
  | VDict d => match d with [] => false | _ => true end
  end.

(** Whether [hash(x)] succeeds: lists and dictionaries are unhashable, a
    tuple is hashable when its elements are. *)
Fixpoint hashable (x : value) : bool :=
  match x with
  | VList _ | VDict _ => false
  | VTuple l => forallb hashable l
  | _ => true
  end.

(** [entity_type = entity_type or x.get('type')] followed by the test
    [entity_type and entity_type in self.entities]: the entity type the
    dictionary is rewritten against, if any. *)
Definition recognised_type (self : Schema) (entity_type : option string)
    (x : list (string * value)) : result (option string) :=
  let chosen :=
    match entity_type with
    | Some e => if String.eqb e EmptyString
                then default VNone (dict_get x "type") else VStr e
    | None => default VNone (dict_get x "type")
    end in
  if negb (truthy chosen) then Ok None
  else match chosen with
       | VStr e => Ok (if has_key (entities self) e then Some e else None)
       | _ => if hashable chosen then Ok None else Raise TypeError
       end.

Fixpoint resolve_structure (self : Schema) (x : value)
    (entity_type : option string) (o : options) {struct x} : result value :=
  match x with
  | VList l =>
      let* l' :=
        (fix each (l : list value) : result (list value) :=
           match l with
           | [] => Ok []
           | y :: r =>
               let* y' := resolve_structure self y None o in
               let* r' := each r in Ok (y' :: r')
           end) l in
      Ok (VList l')
  | VTuple l =>
      let* l' :=
        (fix each (l : list value) : result (list value) :=
           match l with
           | [] => Ok []
           | y :: r =>
               let* y' := resolve_structure self y None o in
               let* r' := each r in Ok (y' :: r')
           end) l in
      Ok (VTuple l')
  | VDict d =>
      let* t := recognised_type self entity_type d in
      match t with
      | Some entity_type =>
          let* new_values :=
            (fix items (d : list (string * value))
                 (new_values : list (string * value)) :=
               match d with
               | [] => Ok new_values
               | (field_spec, v) :: r =>
                   let* v' := resolve_structure self v None default_options in
                   let* names :=
                     resolve_field self entity_type (spec_str field_spec) o in
                   items r
                     (fold_left (fun nv field => dict_set nv field v')
                                names new_values)
               end) d [] in
          Ok (VDict new_values)
      | None =>
          let* new_values :=
            (fix items (d : list (string * value))
                 (new_values : list (string * value)) :=
               match d with
               | [] => Ok new_values
               | (k, v) :: r =>
                   let* v' := resolve_structure self v None o in
                   items r (dict_set new_values k v')
               end) d [] in
          Ok (VDict new_values)
      end
  | _ => Ok x
  end.

(** [x == y] on values: dictionaries are compared as mappings, whatever
    their iteration order; [True] and [False] equal [1] and [0]. *)
Fixpoint value_eq (x y : value) {struct x} : bool :=
  match x, y with
  | VNone, VNone => true
  | VBool a, VBool b => Bool.eqb a b
  | VBool a, VInt z | VInt z, VBool a => Z.eqb z (if a then 1 else 0)
  | VInt a, VInt b => Z.eqb a b
  | VStr a, VStr b => String.eqb a b
  | VList l, VList m | VTuple l, VTuple m =>
      (fix each (l m : list value) : bool :=
         match l, m with
         | [], [] => true
         | a :: l', b :: m' => value_eq a b && each l' m'
         | _, _ => false
         end) l m
  | VDict d, VDict e =>
      (length d =? length e)%nat
      && (fix each (d : list (string * value)) : bool :=
            match d with
            | [] => true
            | (k, v) :: d' =>
                match dict_get e k with
                | Some w => value_eq v w && each d'
                | None => false
                end
            end) d
  | _, _ => false
  end.

(** ** Notions used by the statements *)

(** The field spec contains no ['.']. *)
Fixpoint dotless (s : string) : bool :=
  match s with
  | EmptyString => true
  | String c r => negb (Ascii.eqb c ".") && dotless r
  end.

(** The field spec starts with none of the operators [!], [#] and [$]. *)
Definition sigil_free (s : string) : bool :=
  match s with
  | EmptyString => true
  | String c _ => negb (Ascii.eqb c "!" || Ascii.eqb c "#" || Ascii.eqb c "$")
  end.

(** The field spec starts with an alphanumeric character. *)
Definition starts_alnum (s : string) : bool :=
  match s with
  | EmptyString => false
  | String c _ => isalnum c
  end.

(** [k] is the name of a field of the entity type [e]. *)
Definition is_field (self : Schema) (e k : string) : bool :=
  match entities self !! e with
  | Some entity => has_key (fields entity) k
  | None => false
  end.

(** [k] is a structural key, or the name of a field of [e] that starts
    with no operator and holds no dot. *)
Definition plain_field (self : Schema) (e k : string) : bool :=
  String.eqb k "id" || String.eqb k "type"
  || (is_field self e k && sigil_free k && dotless k).

(** [k] is a structural key or starts with an alphanumeric character. *)
Definition alnum_key (self : Schema) (e k : string) : bool :=
  String.eqb k "id" || String.eqb k "type" || starts_alnum k.

(** Every dictionary of [x] has distinct keys, as a Python [dict] does. *)
Fixpoint distinct_keys (x : value) : bool :=
  match x with
  | VList l | VTuple l => forallb distinct_keys l
  | VDict d =>
      bool_decide (NoDup (map fst d))
      && forallb (fun kv => let '(_, v) := kv in distinct_keys v) d
  | _ => true
  end.

(** Every key of [x] that [resolve_structure] resolves against an entity
    type [e] satisfies [ok self e k]. *)
Fixpoint resolved_keys (ok : Schema -> string -> string -> bool)
    (self : Schema) (x : value) (entity_type : option string) {struct x}
    : bool :=
  match x with
  | VList l | VTuple l =>
      forallb (fun y => resolved_keys ok self y None) l
  | VDict d =>
      match recognised_type self entity_type d with
      | Ok (Some e) =>
          forallb (fun kv => let '(k, v) := kv in
                             ok self e k && resolved_keys ok self v None) d
      | Ok None =>
          forallb (fun kv => let '(_, v) := kv in resolved_keys ok self v None) d
      | Raise _ => true
      end
  | _ => true
  end.

(** *** The dotted resolution as the specification words it *)

(** Tokens paired two at a time: the first pair's entity spec is the root
    entity type, every later pair's entity spec is the token before its
    field spec. *)
Fixpoint hops (entity_spec : string) (tokens : list string)
    : list (string * string) :=
  match tokens with
  | [] => []
  | field_spec :: rest =>
      (entity_spec, field_spec)
        :: match rest with
           | [] => []
           | next_entity :: rest' => hops next_entity rest'
           end
  end.

(** The candidates of one hop: outer loop over the entity candidates,
    inner loop over the field candidates of each. *)
Definition hop_candidates (self : Schema) (o : options)
    (hop : string * string) (candidates : list (string * string)) : Prop :=
  exists (entity_types : list string) (names : list (list string)),
    resolve_entity self (fst hop) (implicit_aliases o) (strict o)
      = Ok entity_types
    /\ Forall2 (fun e fs => _resolve_field self e (snd hop) o = Ok fs)
               entity_types names
    /\ candidates
       = concat (zip_with (fun e fs => map (fun f => (e, f)) fs)
                          entity_types names).

(** The cartesian product, the first component varying slowest. *)
Fixpoint cartesian {A : Type} (sets : list (list A)) : list (list A) :=
  match sets with
  | [] => [[]]
  | s :: rest => flat_map (fun a => map (fun c => a :: c) (cartesian rest)) s
  end.

(** One combination as a path: the first hop gives its field name, every
    later hop ["<entity_type>.<field_name>"], joined with ["."]. *)
Definition path_of (combination : list (string * string)) : string :=
  match combination with
  | [] => EmptyString
  | (_, f) :: rest =>
      join "." (f :: map (fun ef => fst ef +:+ "." +:+ snd ef) rest)
  end.

(** *** The rewriting of a dictionary, by its parts *)

(** The loop over the items of an entity record, given how a value is
    rewritten and how a key is resolved. *)
Definition rewrite_entity_items (rewrite : value -> result value)
    (resolve : string -> result (list string)) (d : list (string * value))
    : result (list (string * value)) :=
  for_each d []
    (fun new_values kv =>
       let* v' := rewrite (snd kv) in
       let* names := resolve (fst kv) in
       Ok (fold_left (fun nv field => dict_set nv field v') names new_values)).

(** The comprehension over the items of any other dictionary. *)
Definition rewrite_plain_items (rewrite : value -> result value)
    (d : list (string * value)) : result (list (string * value)) :=
  for_each d []
    (fun new_values kv =>
       let* v' := rewrite (snd kv) in Ok (dict_set new_values (fst kv) v')).

(** The elements of a sequence, rewritten in order. *)
Fixpoint rewrite_elements (rewrite : value -> result value) (l : list value)
    : result (list value) :=
  match l with
  | [] => Ok []
  | y :: r =>
      let* y' := rewrite y in
      let* r' := rewrite_elements rewrite r in Ok (y' :: r')
  end.

(** ** Example stores and structures *)

Definition no_entity : Entity :=
  {| fields := ∅; field_aliases := ∅; field_tags := ∅ |}.

Definition text_field : Field := {| data_type := "text" |}.

(** Entity types [A], [B] and [C]; the entity tag [t] lists [B] then [C];
    the field spec [field] is an alias of [x] on [B] and of [y] on [C]. *)
Definition tagged_store : Schema :=
  {| entities :=
       {[ "A" := no_entity;
          "B" := {| fields := ∅; field_aliases := {[ "field" := "x" ]};
                    field_tags := ∅ |};
          "C" := {| fields := ∅; field_aliases := {[ "field" := "y" ]};
                    field_tags := ∅ |} ]};
     entity_aliases := ∅;
     entity_tags := {[ "t" := ["B"; "C"] ]} |}.

(** [Shot] with the field [code] and the alias [sg_status] of
    [sg_status_list]. *)
Definition shot_entity : Entity :=
  {| fields := {[ "code" := text_field ]};
     field_aliases := {[ "sg_status" := "sg_status_list" ]};
     field_tags := ∅ |}.

Definition shot_store : Schema :=
  {| entities := {[ "Shot" := shot_entity ]};
     entity_aliases := ∅;
     entity_tags := ∅ |}.

Definition shot_record : value :=
  VDict [("type", VStr "Shot"); ("sg_status", VStr "ip")].

(** An entity type whose only field, [sg_foo], follows the prefix
    convention. *)
Definition prefixed_store : Schema :=
  {| entities :=
       {[ "E" := {| fields := {[ "sg_foo" := text_field ]};
                    field_aliases := ∅; field_tags := ∅ |} ]};
     entity_aliases := ∅;
     entity_tags := ∅ |}.

(** An entity type whose prefixed field name contains a dot. *)
Definition dotted_name_store : Schema :=
  {| entities :=
       {[ "E" := {| fields := {[ "sg_a.b" := text_field ]};
                    field_aliases := ∅; field_tags := ∅ |} ]};
     entity_aliases := ∅;
     entity_tags := ∅ |}.

(** An entity type whose prefixed field name continues with an
    underscore. *)
Definition underscore_name_store : Schema :=
  {| entities :=
       {[ "E" := {| fields := {[ "sg__x" := text_field ]};
                    field_aliases := ∅; field_tags := ∅ |} ]};
     entity_aliases := ∅;
     entity_tags := ∅ |}.

(** An entity type with fields named like escaped specs. *)
Definition escaped_name_store : Schema :=
  {| entities :=
       {[ "E" := {| fields := {[ "type" := text_field; "!!x" := text_field ]};
                    field_aliases := ∅; field_tags := ∅ |} ]};
     entity_aliases := ∅;
     entity_tags := ∅ |}.

Definition escaped_record : value :=
  VDict [("type", VStr "E"); ("!!x", VInt 1)].

(** A [Shot] record whose keys are all physical names, holding a nested
    record and a list. *)
Definition physical_record : value :=
  VDict [("type", VStr "Shot"); ("id", VInt 7);
         ("code", VList [VDict [("type", VStr "Shot"); ("code", VStr "sh020")];
                         VDict [("note", VNone)]])].

(** [Shot] with aliases, tags and prefixed fields for [id] and [type]. *)
Definition conflicting_entity : Entity :=
  {| fields := {[ "sg_id" := text_field; "sg_type" := text_field ]};
     field_aliases := {[ "id" := "code"; "type" := "code" ]};
     field_tags := {[ "id" := ["a"; "b"]; "type" := [] ]} |}.

Definition conflicting_store : Schema :=
  {| entities := {[ "Shot" := conflicting_entity ]};
     entity_aliases := ∅;
     entity_tags := ∅ |}.

(** A [Shot] record holding, under a physical key, a record with a key
    that is unknown to [Shot]. *)
Definition unknown_key_record : value :=
  VDict [("type", VStr "Shot"); ("bogus", VInt 1)].

Definition nesting_record : value :=
  VDict [("type", VStr "Shot"); ("code", unknown_key_record)].

Definition strict_options : options :=
  {| auto_prefix := false; implicit_aliases := false; strict := true |}.

(** ** The callers that want exactly one name *)

(** The [ValueError] of [resolve_one_entity] and [resolve_one_field], with
    the values formatted into its message. *)
Inductive count_error : Type :=
| returned_entity_types (entity_spec : string) (n : nat)
| returned_fields (field_spec : field_spec_arg) (n : nat) (entity_type : string).

(** What a resolve-one call ends with: the single name, the exception of
    the resolver it calls, or its own [ValueError]. *)
Inductive one_result : Type :=
| One (name : string)
| Propagated (e : exn)
| CountError (m : count_error).

Definition resolve_one_entity (self : Schema) (entity_spec : string)
    (implicit_aliases strict : bool) : one_result :=
  match resolve_entity self entity_spec implicit_aliases strict with
  | Raise e => Propagated e
  | Ok res =>
      match res with
      | [e] => One e
      | _ => CountError (returned_entity_types entity_spec (length res))
      end
  end.

Definition resolve_one_field (self : Schema) (entity_type : string)
    (field_spec : field_spec_arg) (o : options) : one_result :=
  match resolve_field self entity_type field_spec o with
  | Raise e => Propagated e
  | Ok res =>
      match res with
      | [f] => One f
      | _ => CountError (returned_fields field_spec (length res) entity_type)
      end
  end.


(** The spec is a tag: it starts with [#]. *)
Definition is_tag (s : string) : bool :=
  match s with
  | EmptyString => false
  | String c _ => Ascii.eqb c "#"
  end.

(** The options [o] with [strict] unset. *)
Definition lenient (o : options) : options :=
  {| auto_prefix := auto_prefix o;
     implicit_aliases := implicit_aliases o;
     strict := false |}.

(** The loop of [resolve_field] over a list or tuple of field specs,
    given how one of them is resolved. *)
Fixpoint resolve_field_seq (resolve : field_spec_arg -> result (list string))
    (l : list field_spec_arg) (res : list string) : result (list string) :=
  match l with
  | [] => Ok res
  | x :: r => let* xs := resolve x in resolve_field_seq resolve r (res ++ xs)
  end.

(** A hop whose entity spec is the alphanumeric name of a known entity
    type and whose field spec is ["id"], ["type"] or the alphanumeric,
    dotless name of one of its fields. *)
Definition physical_hop (self : Schema) (hop : string * string) : bool :=
  starts_alnum (fst hop) && has_key (entities self) (fst hop)
  && plain_field self (fst hop) (snd hop)
  && alnum_key self (fst hop) (snd hop).

(** [Shot] and [Task], the alias [S] of [Shot] and the tag [work] of
    both. *)
Definition aliased_store : Schema :=
  {| entities :=
       {[ "Shot" := shot_entity;
          "Task" := {| fields := {[ "entity" := text_field ]};
                       field_aliases := ∅;
                       field_tags := {[ "core" := ["entity"; "id"] ]} |} ]};
     entity_aliases := {[ "S" := "Shot" ]};
     entity_tags := {[ "work" := ["Shot"; "Task"] ]} |}.

(** No key is accepted: a structure satisfies [resolved_keys no_key] when
    none of its keys is resolved against an entity type. *)
Definition no_key (self : Schema) (e k : string) : bool := false.

(** A structure without any entity record. *)
Definition untyped_structure : value :=
  VList [VDict [("sg_status", VStr "ip"); ("#t", VTuple [VInt 1; VNone])];
         VStr "type"; VDict []].

(** A [Shot] record with two keys for one field, a key for an undefined
    tag and a key for a tag of two fields. *)
Definition tag_entity : Entity :=
  {| fields := {[ "code" := text_field; "sg_status_list" := text_field ]};
     field_aliases := {[ "status" := "sg_status_list" ]};
     field_tags := {[ "both" := ["code"; "sg_status_list"] ]} |}.

Definition tag_store : Schema :=
  {| entities := {[ "Shot" := tag_entity ]};
     entity_aliases := ∅;
     entity_tags := ∅ |}.

Definition colliding_record : list (string * value) :=
  [("type", VStr "Shot"); ("status", VStr "ip"); ("#nothing", VInt 0);
   ("sg_status_list", VStr "fin")].

(** ** Building the store *)

(** What the loading methods raise: their own [ValueError]s, with the
    keys formatted into the message; the [AttributeError] of
    [.iteritems()] on a value that is no dictionary; and what the methods
    of [Entity], [Field] and [merge_update], which are not part of the
    sources at hand, may raise. *)
Inductive load_exn : Type :=
| mix_of_direct_and_indirect
| unknown_schema_keys (keys : list string)
| missing_keys_in_raw_schema (keys : list string)
| extra_keys_in_raw_schema (keys : list string)
| AttributeError
| collaborator_raised (what : string).

(** [c.isupper()] for a one-character byte string. *)
Definition isupper (c : ascii) : bool :=
  let n := nat_of_ascii c in ((65 <=? n) && (n <=? 90))%nat.

(** [k[:1].isupper()]. *)
Definition head_isupper (k : string) : bool :=
  match k with
  | EmptyString => false
  | String c _ => isupper c
  end.

(** [k in d] and [del d[k]] for a dictionary in iteration order. *)
Definition dict_has {V : Type} (d : list (string * V)) (k : string) : bool :=
  match dict_get d k with
  | Some _ => true
  | None => false
  end.

Definition dict_remove {V : Type} (d : list (string * V)) (k : string)
    : list (string * V) :=
  List.filter (fun kv => negb (String.eqb (fst kv) k)) d.

(** [d.pop(k, default)]: the value and what is left of [d]. *)
Definition dict_pop (d : list (string * value)) (k : string) (default : value)
    : value * list (string * value) :=
  (match dict_get d k with Some v => v | None => default end, dict_remove d k).

(** [sorted(keys)], in the byte order of [str]. *)
Fixpoint insert_sorted (k : string) (l : list string) : list string :=
  match l with
  | [] => [k]
  | x :: r => if String.leb k x then k :: l else x :: insert_sorted k r
  end.

Definition sorted (l : list string) : list string :=
  fold_right insert_sorted [] l.

Section Loading.

(** The constructor [Entity(self, name)]. *)
Variable Entity_init : Schema -> string -> Entity.

(** [self.entities[name].__setstate__(value)]: the entity knows its schema,
    so the call may change the store as a whole, and may raise. *)
Variable Entity_setstate : Schema -> string -> value -> Schema * option string.

(** [merge_update(dst, src)] of [sgschema/utils.py], at the types of the
    two tables it is applied to: it changes [dst], and may raise. *)
Variable merge_update_aliases :
  gmap string string -> value -> gmap string string * option string.
Variable merge_update_tags :
  gmap string (list string) -> value
  -> gmap string (list string) * option string.

(** [e.__getstate__()] of an entity. *)
Variable Entity_getstate : Entity -> value.

(** The entity returned, and the store after the call. *)
Definition _get_or_make_entity (self : Schema) (name : string)
    : Entity * Schema :=
  match entities self !! name with
  | Some entity => (entity, self)
  | None =>
      let entity := Entity_init self name in
      (entity,
       {| entities := <[name := entity]> (entities self);
          entity_aliases := entity_aliases self;
          entity_tags := entity_tags self |})
  end.

(** The loop of [__setstate__] over the items of the ["entities"] entry:
    the store it leaves, and the exception that ended it, if any. *)
Fixpoint load_entities (self : Schema) (items : list (string * value))
    : Schema * option load_exn :=
  match items with
  | [] => (self, None)
  | (type_name, v) :: r =>
      let self1 := snd (_get_or_make_entity self type_name) in
      match Entity_setstate self1 type_name v with
      | (self2, Some what) => (self2, Some (collaborator_raised what))
      | (self2, None) => load_entities self2 r
      end
  end.

(** [__setstate__] from its loop over the entities on, for a
    [raw_schema] whose shorthand has been expanded. *)
Definition load_tables (self : Schema) (raw_schema : list (string * value))
    : Schema * option load_exn :=
  let (ents, raw1) := dict_pop raw_schema "entities" (VDict []) in
  match ents with
  | VDict items =>
      match load_entities self items with
      | (self1, Some e) => (self1, Some e)
      | (self1, None) =>
          let (aliases, raw2) := dict_pop raw1 "entity_aliases" (VDict []) in
          let (aliases', failed) :=
            merge_update_aliases (entity_aliases self1) aliases in
          let self2 := {| entities := entities self1;
                          entity_aliases := aliases';
                          entity_tags := entity_tags self1 |} in
          match failed with
          | Some what => (self2, Some (collaborator_raised what))
          | None =>
              let (tags, raw3) := dict_pop raw2 "entity_tags" (VDict []) in
              let (tags', failed) :=
                merge_update_tags (entity_tags self2) tags in
              let self3 := {| entities := entities self2;
                              entity_aliases := entity_aliases self2;
                              entity_tags := tags' |} in
              match failed with
              | Some what => (self3, Some (collaborator_raised what))
              | None =>
                  match raw3 with
                  | [] => (self3, None)
                  | _ => (self3,
                          Some (unknown_schema_keys (sorted (map fst raw3))))
                  end
              end
          end
      end
  | _ => (self, Some AttributeError)
  end.

(** [Schema.__setstate__]: the store it leaves, and the exception it
    raised, if any. *)
Definition __setstate__ (self : Schema) (raw_schema : list (string * value))
    : Schema * option load_exn :=
  let title_cased :=
    length (List.filter (fun kv => head_isupper (fst kv)) raw_schema) in
  if (title_cased =? 0)%nat then load_tables self raw_schema
  else if negb (length raw_schema =? title_cased)%nat
       then (self, Some mix_of_direct_and_indirect)
       else load_tables self [("entities", VDict raw_schema)].

(** [Schema.__getstate__]: the tables that are not empty, the store's
    dictionaries being listed in the order [map_to_list] gives. *)
Definition __getstate__ (self : Schema) : list (string * value) :=
  List.filter (fun kv => truthy (snd kv))
    [("entities",
      VDict (map (fun ne => (fst ne, Entity_getstate (snd ne)))
                 (map_to_list (entities self))));
     ("entity_aliases",
      VDict (map (fun kv => (fst kv, VStr (snd kv)))
                 (map_to_list (entity_aliases self))));
     ("entity_tags",
      VDict (map (fun kv => (fst kv, VList (map VStr (snd kv))))
                 (map_to_list (entity_tags self))))].

End Loading.

(** [Schema()]: the store of a new schema. *)
Definition empty_schema : Schema :=
  {| entities := ∅; entity_aliases := ∅; entity_tags := ∅ |}.

(** Collaborators for the examples: a new entity has empty tables, an
    entity's [__setstate__] refuses anything but a dictionary and
    otherwise leaves the store as it is, and [merge_update] leaves its
    destination as it is. *)
Definition example_init (self : Schema) (name : string) : Entity := no_entity.

Definition example_setstate (self : Schema) (name : string) (v : value)
    : Schema * option string :=
  match v with
  | VDict _ => (self, None)
  | _ => (self, Some "not a dict")
  end.

Definition example_merge {V : Type} (dst : gmap string V) (src : value)
    : gmap string V * option string :=
  (dst, None).

Definition example_getstate (e : Entity) : value := VDict [].

(** The three keys a schema document may have. *)
Definition schema_key (k : string) : bool :=
  String.eqb k "entities" || String.eqb k "entity_aliases"
  || String.eqb k "entity_tags".


Definition direct_document : list (string * value) :=
  [("Shot", VDict []); ("Task", VDict [])].


(** ** Loading a raw schema *)

(** A schema object: its store and the three raw documents it keeps. *)
Record SchemaObject : Type := {
  store : Schema;
  _raw_fields : value;
  _raw_entities : value;
  _raw_private : value
}.

(** [Schema()], as [__init__] leaves it. *)
Definition new_schema : SchemaObject :=
  {| store := empty_schema;
     _raw_fields := VNone; _raw_entities := VNone; _raw_private := VNone |}.

(** The keys [load_raw] requires, in the order it checks them. *)
Definition raw_keys : list string :=
  ["raw_entities"; "raw_fields"; "raw_private"].

Section Raw.

Variable Entity_init : Schema -> string -> Entity.

(** [entity._reduce_raw(self, raw_entity)], [entity._get_or_make_field(name)]
    and [field._reduce_raw(self, raw_field)], for the entity and the field
    of the given names: they are handed the schema object, so they may
    change it as a whole, and may raise. *)
Variable Entity_reduce_raw :
  SchemaObject -> string -> value -> SchemaObject * option string.
Variable Entity_get_or_make_field :
  SchemaObject -> string -> string -> SchemaObject * option string.
Variable Field_reduce_raw :
  SchemaObject -> string -> string -> value -> SchemaObject * option string.

(** [self._get_or_make_entity(type_name)] on a schema object. *)
Definition make_entity (self : SchemaObject) (type_name : string)
    : SchemaObject :=
  {| store := snd (_get_or_make_entity Entity_init (store self) type_name);
     _raw_fields := _raw_fields self;
     _raw_entities := _raw_entities self;
     _raw_private := _raw_private self |}.

(** The first loop of [_reduce_raw]. *)
Fixpoint reduce_entities (self : SchemaObject) (items : list (string * value))
    : SchemaObject * option load_exn :=
  match items with
  | [] => (self, None)
  | (type_name, raw_entity) :: r =>
      match Entity_reduce_raw (make_entity self type_name) type_name raw_entity
      with
      | (self', Some what) => (self', Some (collaborator_raised what))
      | (self', None) => reduce_entities self' r
      end
  end.

(** The inner loop of the second loop, over the fields of one type. *)
Fixpoint reduce_fields_of (self : SchemaObject) (type_name : string)
    (items : list (string * value)) : SchemaObject * option load_exn :=
  match items with
  | [] => (self, None)
  | (field_name, raw_field) :: r =>
      match Entity_get_or_make_field self type_name field_name with
      | (self1, Some what) => (self1, Some (collaborator_raised what))
      | (self1, None) =>
          match Field_reduce_raw self1 type_name field_name raw_field with
          | (self2, Some what) => (self2, Some (collaborator_raised what))
          | (self2, None) => reduce_fields_of self2 type_name r
          end
      end
  end.

(** The second loop of [_reduce_raw]. *)
Fixpoint reduce_fields (self : SchemaObject) (items : list (string * value))
    : SchemaObject * option load_exn :=
  match items with
  | [] => (self, None)
  | (type_name, raw_fields) :: r =>
      let self1 := make_entity self type_name in
      match raw_fields with
      | VDict fields_of_type =>
          match reduce_fields_of self1 type_name fields_of_type with
          | (self2, Some e) => (self2, Some e)
          | (self2, None) => reduce_fields self2 r
          end
      | _ => (self1, Some AttributeError)
      end
  end.

Definition _reduce_raw (self : SchemaObject) : SchemaObject * option load_exn :=
  match _raw_entities self with
  | VDict items =>
      match reduce_entities self items with
      | (self1, Some e) => (self1, Some e)
      | (self1, None) =>
          match _raw_fields self1 with
          | VDict items' => reduce_fields self1 items'
          | _ => (self1, Some AttributeError)
          end
      end
  | _ => (self, Some AttributeError)
  end.

(** [load_raw], from the parsed document on. *)
Definition load_raw (self : SchemaObject) (raw : list (string * value))
    : SchemaObject * option load_exn :=
  let keys := raw_keys in
  let missing := List.filter (fun k => negb (dict_has raw k)) keys in
  match missing with
  | _ :: _ => (self, Some (missing_keys_in_raw_schema missing))
  | [] =>
      if negb (length keys =? 3)%nat
      then (self,
            Some (extra_keys_in_raw_schema
                    (List.filter
                       (fun k => negb (existsb (String.eqb k) keys))
                       (map fst raw))))
      else
        let item k := match dict_get raw k with Some v => v | None => VNone end in
        _reduce_raw
          {| store := store self;
             _raw_fields := item "raw_fields";
             _raw_entities := item "raw_entities";
             _raw_private := item "raw_private" |}
  end.

End Raw.

(** Collaborators for the examples: they leave the schema object as it
    is. *)
Definition example_reduce_entity (self : SchemaObject) (type_name : string)
    (raw : value) : SchemaObject * option string := (self, None).

Definition example_make_field (self : SchemaObject)
    (type_name field_name : string) : SchemaObject * option string :=
  (self, None).

Definition example_reduce_field (self : SchemaObject)
    (type_name field_name : string) (raw : value)
    : SchemaObject * option string := (self, None).

Definition raw_document : list (string * value) :=
  [("raw_private", VDict []); ("comment", VStr "extra");
   ("raw_fields", VDict [("Shot", VDict [("code", VDict [])])]);
   ("raw_entities", VDict [("Task", VDict [])])].

(** * Properties *)

(** ** Strings and specs *)

Lemma split_dotless (s : string) : dotless s = true -> split "." s = [s].
Proof.
  induction s as [|c r IH]; simpl; [reflexivity|].
  intros [Hc Hr]%andb_true_iff.
  apply negb_true_iff in Hc. rewrite Hc, (IH Hr). reflexivity.
Qed.

Lemma split_not_nil (sep : ascii) (s : string) : split sep s <> [].
Proof.
  destruct s as [|c r]; simpl; [discriminate|].
  destruct (Ascii.eqb c sep); [discriminate|].
  destruct (split sep r); discriminate.
Qed.

Lemma isalnum_no_operator (c : ascii) :
  isalnum c = true ->
  Ascii.eqb c "!" = false /\ Ascii.eqb c "#" = false /\ Ascii.eqb c "$" = false.
Proof.
  intros H. repeat split; apply Ascii.eqb_neq; intros ->; discriminate H.
Qed.

Lemma resolve_field_str_dotless (self : Schema) (e s : string) (o : options) :
  dotless s = true ->
  resolve_field_str self e s o = _resolve_field self e s o.
Proof.
  intros H. unfold resolve_field_str. rewrite (split_dotless s H). reflexivity.
Qed.

(** The default branch of the field grammar, for a spec that is neither
    [id] nor [type] and starts with an alphanumeric character. *)
Lemma _resolve_field_default (self : Schema) (e s : string) (entity : Entity)
    (o : options) :
  entities self !! e = Some entity ->
  s <> "id" -> s <> "type" -> starts_alnum s = true ->
  _resolve_field self e s o =
    if has_key (fields entity) s then Ok [s]
    else if auto_prefix o && has_key (fields entity) ("sg_" +:+ s)
    then Ok ["sg_" +:+ s]
    else match (if implicit_aliases o then field_aliases entity !! s
                else None) with
         | Some f => Ok [f]
         | None => if strict o then Raise (ValueError (not_a_field s e))
                   else Ok [s]
         end.
Proof.
  intros He Hid Hty Hal. unfold _resolve_field. rewrite He.
  apply String.eqb_neq in Hid, Hty. rewrite Hid, Hty. cbn [orb].
  destruct s as [|c r]; [discriminate Hal|].
  cbn [starts_alnum] in Hal.
  destruct (isalnum_no_operator c Hal) as (-> & -> & ->).
  rewrite Hal. reflexivity.
Qed.

(** ** Single-field resolution *)

(** C7. Against an entity type that is absent from the store's entities,
    single-field resolution raises the [ValueError] saying that the name
    is not an entity type, whatever the field spec (well-formed or not)
    and whatever the options. *)
Theorem unknown_entity_type_fails (self : Schema) (entity_type field_spec : string)
    (o : options) :
  entities self !! entity_type = None ->
  _resolve_field self entity_type field_spec o
  = Raise (ValueError (not_an_entity_type entity_type)).
Proof.
  intros H. unfold _resolve_field. rewrite H. reflexivity.
Qed.

Lemma unknown_entity_type_fails_witness :
  _resolve_field shot_store "Asset" "%%" strict_options
  = Raise (ValueError (not_an_entity_type "Asset"))
  /\ _resolve_field shot_store "Asset" "code" default_options
     = Raise (ValueError (not_an_entity_type "Asset")).
Proof.
  split; apply unknown_entity_type_fails; reflexivity.
Defined.

Lemma resolve_field_structural (self : Schema) (e k : string)
    (entity : Entity) (o : options) :
  entities self !! e = Some entity ->
  String.eqb k "id" || String.eqb k "type" = true ->
  resolve_field self e (spec_str k) o = Ok [k].
Proof.
  intros He Hk. cbn [resolve_field].
  assert (Hdot : dotless k = true).
  { apply orb_true_iff in Hk as [->%String.eqb_eq | ->%String.eqb_eq];
      reflexivity. }
  rewrite (resolve_field_str_dotless _ _ _ _ Hdot).
  unfold _resolve_field. now rewrite He, Hk.
Qed.

(** C6. For an entity type of the store and any options, [resolve_field]
    maps ["id"] to [["id"]] and ["type"] to [["type"]]. *)
Theorem structural_fields_resolve_to_themselves (self : Schema)
    (entity_type : string) (entity : Entity) (o : options) :
  entities self !! entity_type = Some entity ->
  resolve_field self entity_type (spec_str "id") o = Ok ["id"]
  /\ resolve_field self entity_type (spec_str "type") o = Ok ["type"].
Proof.
  intros H.
  split; apply (resolve_field_structural self entity_type _ entity o H);
    reflexivity.
Qed.

(** The override holds against an entity type that aliases, tags and
    prefixes both names. *)
Lemma structural_fields_resolve_to_themselves_witness :
  resolve_field conflicting_store "Shot" (spec_str "id") strict_options
  = Ok ["id"]
  /\ resolve_field conflicting_store "Shot" (spec_str "type") default_options
     = Ok ["type"].
Proof.
  split.
  - apply (structural_fields_resolve_to_themselves
             conflicting_store "Shot" conflicting_entity strict_options).
    reflexivity.
  - apply (structural_fields_resolve_to_themselves
             conflicting_store "Shot" conflicting_entity default_options).
    reflexivity.
Defined.

(** C4, as stated, fails: on an alias miss the field resolver returns the
    spec with its [$], not the bare alias name. *)
Lemma field_alias_miss_counterexample :
  entities shot_store !! "Shot" = Some shot_entity
  /\ field_aliases shot_entity !! "FROM" = None
  /\ _resolve_field shot_store "Shot" "$FROM" default_options = Ok ["$FROM"]
  /\ _resolve_field shot_store "Shot" "$FROM" default_options <> Ok ["FROM"].
Proof.
  repeat split; try reflexivity. vm_compute. discriminate.
Qed.

(** C4, amended. An alias name that is no key of [entity_aliases] resolves,
    as the entity spec ["$" + A], to the empty list; one that is no key of
    the [field_aliases] of a known entity type resolves, as the field spec
    ["$" + A], to the one-element list holding the spec itself, [$]
    included. *)
Theorem alias_miss_asymmetry (self : Schema) (A : string) :
  (forall implicit strict : bool,
      entity_aliases self !! A = None ->
      resolve_entity self (String "$" A) implicit strict = Ok [])
  /\ (forall (E : string) (entity : Entity) (o : options),
         entities self !! E = Some entity ->
         field_aliases entity !! A = None ->
         _resolve_field self E (String "$" A) o = Ok [String "$" A]).
Proof.
  split.
  - intros implicit strict H. cbn. rewrite H. reflexivity.
  - intros E entity o HE H. unfold _resolve_field. rewrite HE. cbn.
    rewrite H. reflexivity.
Qed.

Lemma alias_miss_asymmetry_witness :
  resolve_entity shot_store "$FROM" true false = Ok []
  /\ _resolve_field shot_store "Shot" "$FROM" default_options = Ok ["$FROM"].
Proof.
  destruct (alias_miss_asymmetry shot_store "FROM") as [He Hf].
  split.
  - apply He. reflexivity.
  - apply (Hf "Shot" shot_entity); reflexivity.
Defined.

(** C5, as stated, fails for a spec that holds a dot: it is read as a
    dotted path, of which only the first token is resolved. *)
Lemma auto_prefix_dotted_counterexample :
  is_field dotted_name_store "E" "a.b" = false
  /\ is_field dotted_name_store "E" "sg_a.b" = true
  /\ sigil_free "a.b" = true
  /\ resolve_field dotted_name_store "E" (spec_str "a.b") default_options
     = Ok ["a"]
  /\ resolve_field dotted_name_store "E" (spec_str "a.b") default_options
     <> Ok ["sg_a.b"].
Proof.
  repeat split; try reflexivity. vm_compute. discriminate.
Qed.

(** Nor does it hold for a spec that starts with a character that is
    neither alphanumeric nor an operator. *)
Lemma auto_prefix_underscore_example :
  is_field underscore_name_store "E" "_x" = false
  /\ is_field underscore_name_store "E" "sg__x" = true
  /\ sigil_free "_x" = true
  /\ resolve_field underscore_name_store "E" (spec_str "_x") default_options
     = Raise (ValueError (unknown_field_operation "E" "_x")).
Proof. repeat split. Qed.

(** C5, amended. Let [foo] start with an alphanumeric character, hold no
    dot and be neither ["id"] nor ["type"]; let the known entity type [E]
    have the field ["sg_" + foo] but no field [foo]. With [auto_prefix]
    set, [resolve_field] returns [["sg_" + foo]]; with [auto_prefix] and
    [strict] unset and [foo] no alias of [E], it returns [[foo]]. *)
Theorem auto_prefix_convention (self : Schema) (E foo : string)
    (entity : Entity) :
  entities self !! E = Some entity ->
  starts_alnum foo = true ->
  dotless foo = true ->
  foo <> "id" -> foo <> "type" ->
  has_key (fields entity) foo = false ->
  has_key (fields entity) ("sg_" +:+ foo) = true ->
  (forall o : options,
      auto_prefix o = true ->
      resolve_field self E (spec_str foo) o = Ok ["sg_" +:+ foo])
  /\ (forall o : options,
         auto_prefix o = false -> strict o = false ->
         field_aliases entity !! foo = None ->
         resolve_field self E (spec_str foo) o = Ok [foo]).
Proof.
  intros HE Hal Hdot Hid Hty Hno Hsg.
  split; intros o; cbn [resolve_field];
    rewrite (resolve_field_str_dotless _ _ _ _ Hdot),
            (_resolve_field_default self E foo entity o HE Hid Hty Hal), Hno.
  - intros ->. rewrite Hsg. reflexivity.
  - intros -> -> Hna. cbn [andb]. rewrite Hna.
    destruct (implicit_aliases o); reflexivity.
Qed.

Lemma auto_prefix_convention_witness :
  resolve_field prefixed_store "E" (spec_str "foo") default_options
  = Ok ["sg_foo"]
  /\ resolve_field prefixed_store "E" (spec_str "foo")
       {| auto_prefix := false; implicit_aliases := true; strict := false |}
     = Ok ["foo"].
Proof.
  destruct (auto_prefix_convention prefixed_store "E" "foo"
              {| fields := {[ "sg_foo" := text_field ]};
                 field_aliases := ∅; field_tags := ∅ |})
    as [Hon Hoff]; try reflexivity; try discriminate.
  split; [apply Hon | apply Hoff]; reflexivity.
Defined.

(** ** Dotted resolution *)

Lemma append_assoc (a b c : string) : (a +:+ b) +:+ c = a +:+ (b +:+ c).
Proof.
  induction a as [|x a IH]; [reflexivity|].
  change (String x ((a +:+ b) +:+ c) = String x (a +:+ (b +:+ c))).
  now rewrite IH.
Qed.

Lemma xrange_step2_SS (n : nat) :
  xrange_step2 (S (S n)) = 0 :: map (fun i => S (S i)) (xrange_step2 n).
Proof.
  unfold xrange_step2. replace (S (S n) + 1) with (S (S (n + 1))) by lia.
  cbn [Nat.div2 seq map]. f_equal.
  rewrite <- seq_shift, !map_map. apply map_ext. intros k. lia.
Qed.

Lemma spec_pairs_step (e f e' : string) (rest : list string) :
  spec_pairs e (f :: e' :: rest) = (e, f) :: spec_pairs e' rest.
Proof.
  unfold spec_pairs. cbn [length]. rewrite xrange_step2_SS.
  cbn [map nth]. f_equal. rewrite map_map. apply map_ext.
  intros [|i]; reflexivity.
Qed.

(** The index arithmetic of [spec_pairs] pairs the tokens as [hops] does. *)
Lemma spec_pairs_hops (tokens : list string) :
  forall e : string, spec_pairs e tokens = hops e tokens.
Proof.
  assert (H : forall n tokens, length tokens <= n ->
                forall e, spec_pairs e tokens = hops e tokens).
  { clear tokens. induction n as [|n IH]; intros tokens Hlen e.
    - destruct tokens; [reflexivity | simpl in Hlen; lia].
    - destruct tokens as [|f [|e' rest]]; try reflexivity.
      rewrite spec_pairs_step. cbn [hops]. f_equal. apply IH.
      simpl in Hlen. lia. }
  apply (H (length tokens)). lia.
Qed.

Lemma hops_length (tokens : list string) :
  forall e : string, length (hops e tokens) = Nat.div2 (length tokens + 1).
Proof.
  intros e. rewrite <- spec_pairs_hops. unfold spec_pairs, xrange_step2.
  now rewrite !length_map, length_seq.
Qed.

(** With an odd number of tokens before it, the last token is in no hop. *)
Lemma hops_drop_last (n : nat) :
  forall (pre : list string) (e t1 t2 : string),
    length pre = S (2 * n) -> hops e (pre ++ [t1]) = hops e (pre ++ [t2]).
Proof.
  induction n as [|n IH]; intros pre e t1 t2 Hlen.
  - destruct pre as [|f [|? ?]]; try discriminate Hlen. reflexivity.
  - destruct pre as [|f [|e' pre']]; try discriminate Hlen.
    cbn [app hops]. f_equal. apply IH. simpl in Hlen. lia.
Qed.

Lemma for_each_sets {A B : Type} (f : A -> result B) (l : list A)
    (rs : list B) :
  Forall2 (fun a r => f a = Ok r) l rs ->
  forall acc : list B,
    for_each l acc (fun sets a => let* r := f a in Ok (sets ++ [r]))
    = Ok (acc ++ rs).
Proof.
  induction 1 as [|a r l rs Ha _ IH]; intros acc; cbn [for_each].
  - now rewrite app_nil_r.
  - rewrite Ha. cbn [bind]. rewrite IH, <- app_assoc. reflexivity.
Qed.

Lemma for_each_candidates (self : Schema) (o : options) (field_spec : string)
    (entity_types : list string) (names : list (list string)) :
  Forall2 (fun e fs => _resolve_field self e field_spec o = Ok fs)
          entity_types names ->
  forall acc : list (string * string),
    for_each entity_types acc
      (fun resolved_pairs entity_type =>
         let* fs := _resolve_field self entity_type field_spec o in
         Ok (resolved_pairs ++ map (fun field_name => (entity_type, field_name)) fs))
    = Ok (acc ++ concat (zip_with (fun e fs => map (fun f => (e, f)) fs)
                                  entity_types names)).
Proof.
  induction 1 as [|e fs ets fss Hfs _ IH]; intros acc; cbn [for_each].
  - cbn. now rewrite app_nil_r.
  - rewrite Hfs. cbn [bind]. rewrite IH. cbn [zip_with concat].
    now rewrite app_assoc.
Qed.

Lemma resolve_pair_candidates (self : Schema) (o : options)
    (hop : string * string) (candidates : list (string * string)) :
  hop_candidates self o hop candidates ->
  resolve_pair self o hop = Ok candidates.
Proof.
  intros (ets & fss & He & Hf & ->). unfold resolve_pair. rewrite He.
  cbn [bind]. now rewrite (for_each_candidates _ _ _ _ _ Hf).
Qed.

Lemma flat_map_singleton {A : Type} (l : list A) :
  flat_map (fun x => [x]) l = l.
Proof. induction l as [|x l IH]; [reflexivity|]. cbn. now rewrite IH. Qed.

Lemma flat_map_flat_map {A B C : Type} (f : A -> list B) (g : B -> list C)
    (l : list A) :
  flat_map g (flat_map f l) = flat_map (fun a => flat_map g (f a)) l.
Proof.
  induction l as [|a l IH]; [reflexivity|].
  cbn [flat_map]. now rewrite flat_map_app, IH.
Qed.

Lemma flat_map_map {A B C : Type} (f : A -> B) (g : B -> list C) (l : list A) :
  flat_map g (map f l) = flat_map (fun a => g (f a)) l.
Proof. induction l as [|a l IH]; [reflexivity|]. cbn. now rewrite IH. Qed.

Lemma map_flat_map {A B C : Type} (f : A -> list B) (g : B -> C) (l : list A) :
  map g (flat_map f l) = flat_map (fun a => map g (f a)) l.
Proof.
  induction l as [|a l IH]; [reflexivity|].
  cbn [flat_map]. now rewrite map_app, IH.
Qed.

Lemma product_fold {A : Type} (pools : list (list A)) :
  forall acc : list (list A),
    fold_left
      (fun result pool => flat_map (fun x => map (fun y => x ++ [y]) pool) result)
      pools acc
    = flat_map (fun x => map (fun c => x ++ c) (cartesian pools)) acc.
Proof.
  induction pools as [|p pools IH]; intros acc; cbn [fold_left cartesian].
  - rewrite <- (flat_map_singleton acc) at 1. apply flat_map_ext.
    intros x. cbn [map]. now rewrite app_nil_r.
  - rewrite IH, flat_map_flat_map. apply flat_map_ext. intros x.
    rewrite flat_map_map, map_flat_map. apply flat_map_ext. intros y.
    rewrite map_map. apply map_ext. intros c. now rewrite <- app_assoc.
Qed.

(** [itertools.product] lists the cartesian product, the first pool
    varying slowest. *)
Lemma product_cartesian {A : Type} (pools : list (list A)) :
  product pools = cartesian pools.
Proof.
  unfold product. rewrite product_fold. cbn [flat_map].
  rewrite app_nil_r. apply map_id.
Qed.

Lemma cartesian_length {A : Type} (sets : list (list A)) :
  length (cartesian sets) = fold_right Nat.mul 1 (map length sets).
Proof.
  induction sets as [|s sets IH]; [reflexivity|].
  cbn [cartesian map fold_right].
  rewrite (flat_map_constant_length (c := length (cartesian sets))).
  - now rewrite IH.
  - intros a _. apply length_map.
Qed.

Lemma render_path_of (pairs : list (string * string)) :
  render_path pairs = path_of pairs.
Proof.
  destruct pairs as [|[e f] rest]; [reflexivity|].
  unfold render_path, enumerate, path_of. cbn [length seq combine map fst snd].
  f_equal. f_equal. generalize 0.
  induction rest as [|[e' f'] rest IH]; intros k; [reflexivity|].
  cbn [length seq combine map fst snd]. rewrite IH.
  f_equal. apply append_assoc.
Qed.

(** A dotted spec resolves to the paths of the cartesian product of the
    candidates of its hops. *)
Lemma resolve_field_str_dotted (self : Schema) (e s : string) (o : options)
    (sets : list (list (string * string))) :
  length (split "." s) <> 1 ->
  Forall2 (hop_candidates self o) (hops e (split "." s)) sets ->
  resolve_field_str self e s o = Ok (map path_of (cartesian sets)).
Proof.
  intros Hlen Hsets. unfold resolve_field_str.
  apply Nat.eqb_neq in Hlen. rewrite Hlen, spec_pairs_hops.
  rewrite (for_each_sets (resolve_pair self o) _ sets).
  - cbn [bind app]. rewrite product_cartesian. f_equal.
    apply map_ext, render_path_of.
  - eapply Forall2_impl; [exact Hsets|]. intros hop c.
    apply resolve_pair_candidates.
Qed.

(** C2. For a dotted field spec of at least two hops, whose hops have the
    candidate sets [sets] (each listed by entity candidate, then by field
    candidate), [resolve_field] returns the paths of the cartesian product
    of [sets], the first hop varying slowest; the first hop contributes
    its field name, every later hop its entity type, a dot and its field
    name; there are as many paths as the product of the sizes of the
    sets, repeated ones included. *)
Theorem dotted_resolution_is_cartesian_product (self : Schema)
    (entity_type field_spec : string) (o : options)
    (sets : list (list (string * string))) :
  2 <= length (hops entity_type (split "." field_spec)) ->
  Forall2 (hop_candidates self o)
          (hops entity_type (split "." field_spec)) sets ->
  exists paths : list string,
    resolve_field self entity_type (spec_str field_spec) o = Ok paths
    /\ paths = map path_of (cartesian sets)
    /\ length paths = fold_right Nat.mul 1 (map length sets).
Proof.
  intros Hhops Hsets. exists (map path_of (cartesian sets)).
  split; [|split; [reflexivity|]].
  - cbn [resolve_field]. apply resolve_field_str_dotted; [|exact Hsets].
    intros Hone. rewrite hops_length, Hone in Hhops. cbn in Hhops. lia.
  - rewrite length_map. apply cartesian_length.
Qed.

Lemma dotted_resolution_is_cartesian_product_witness :
  exists paths : list string,
    resolve_field tagged_store "A" (spec_str "A.#t.field") default_options
    = Ok paths
    /\ paths = ["A.B.x"; "A.C.y"]
    /\ length paths = 2.
Proof.
  apply (dotted_resolution_is_cartesian_product tagged_store "A" "A.#t.field"
           default_options [[("A", "A")]; [("B", "x"); ("C", "y")]]).
  - cbn. lia.
  - change (hops "A" (split "." "A.#t.field"))
      with [("A", "A"); ("#t", "field")].
    repeat constructor.
    + exists ["A"], [["A"]]. repeat split. repeat constructor.
    + exists ["B"; "C"], [["x"]; ["y"]]. repeat split. repeat constructor.
Defined.

(** C9. Two dotted field specs whose splits have the same even number of
    tokens and differ in the last token only resolve alike: to the same
    list, or with the same exception. *)
Theorem even_dotted_spec_ignores_last_token (self : Schema)
    (entity_type s1 s2 : string) (o : options) (pre : list string)
    (t1 t2 : string) :
  split "." s1 = pre ++ [t1] ->
  split "." s2 = pre ++ [t2] ->
  Nat.Even (length (pre ++ [t1])) ->
  resolve_field self entity_type (spec_str s1) o
  = resolve_field self entity_type (spec_str s2) o.
Proof.
  intros H1 H2 [n Hn]. rewrite length_app in Hn. cbn [length] in Hn.
  destruct n as [|n]; [lia|].
  assert (Hpre : length pre = S (2 * n)) by lia.
  cbn [resolve_field]. unfold resolve_field_str.
  rewrite H1, H2, !length_app, Hpre, !spec_pairs_hops. cbn [length].
  replace (S (2 * n) + 1 =? 1)%nat with false
    by (symmetry; apply Nat.eqb_neq; lia).
  now rewrite (hops_drop_last n pre entity_type t1 t2 Hpre).
Qed.

Lemma even_dotted_spec_ignores_last_token_witness :
  resolve_field tagged_store "A" (spec_str "A.#t.field.x") default_options
  = resolve_field tagged_store "A" (spec_str "A.#t.field.$%") default_options
  /\ resolve_field tagged_store "A" (spec_str "A.B") strict_options
     = resolve_field tagged_store "A" (spec_str "A.") strict_options.
Proof.
  split.
  - apply (even_dotted_spec_ignores_last_token _ _ _ _ _
             ["A"; "#t"; "field"] "x" "$%"); try reflexivity.
    exists 2. reflexivity.
  - apply (even_dotted_spec_ignores_last_token _ _ _ _ _ ["A"] "B" "");
      try reflexivity.
    exists 1. reflexivity.
Defined.

(** C1, as stated, fails: the leading token [A] is the field spec of the
    first hop, and its resolution starts every path. *)
Lemma tagged_path_counterexample :
  has_key (entities tagged_store) "A" = true
  /\ entity_tags tagged_store !! "t" = Some ["B"; "C"]
  /\ _resolve_field tagged_store "B" "field" default_options = Ok ["x"]
  /\ _resolve_field tagged_store "C" "field" default_options = Ok ["y"]
  /\ resolve_field tagged_store "A" (spec_str "A.#t.field") default_options
     = Ok ["A.B.x"; "A.C.y"]
  /\ resolve_field tagged_store "A" (spec_str "A.#t.field") default_options
     <> Ok ["B.x"; "C.y"].
Proof.
  repeat split; try reflexivity. vm_compute. discriminate.
Qed.

(** C1, amended. In a store where [A] is a known entity type, the entity
    tag [t] lists [B] then [C], and the field spec [field] resolves to [x]
    on [B] and to [y] on [C], the spec ["A.#t.field"] resolved from [A]
    yields, for each name [f] that the leading token [A] resolves to as a
    field spec on [A], the paths [f.B.x] and [f.C.y], in tag order. *)
Theorem tagged_path_resolution (self : Schema) (firsts : list string) :
  has_key (entities self) "A" = true ->
  entity_tags self !! "t" = Some ["B"; "C"] ->
  _resolve_field self "B" "field" default_options = Ok ["x"] ->
  _resolve_field self "C" "field" default_options = Ok ["y"] ->
  _resolve_field self "A" "A" default_options = Ok firsts ->
  resolve_field self "A" (spec_str "A.#t.field") default_options
  = Ok (flat_map (fun f => [f +:+ ".B.x"; f +:+ ".C.y"]) firsts).
Proof.
  intros HA Ht HB HC Hfirst. cbn [resolve_field].
  rewrite (resolve_field_str_dotted self "A" "A.#t.field" default_options
             [map (fun f => ("A", f)) firsts; [("B", "x"); ("C", "y")]]).
  - f_equal. cbn [cartesian]. rewrite flat_map_map, map_flat_map.
    apply flat_map_ext. intros f. reflexivity.
  - cbn. lia.
  - change (hops "A" (split "." "A.#t.field"))
      with [("A", "A"); ("#t", "field")].
    repeat constructor.
    + exists ["A"], [firsts]. repeat split.
      * unfold resolve_entity. cbn. rewrite HA. reflexivity.
      * repeat constructor. exact Hfirst.
      * cbn. now rewrite app_nil_r.
    + exists ["B"; "C"], [["x"]; ["y"]]. repeat split.
      * unfold resolve_entity. cbn. rewrite Ht. reflexivity.
      * repeat constructor; assumption.
Qed.

Lemma tagged_path_resolution_witness :
  resolve_field tagged_store "A" (spec_str "A.#t.field") default_options
  = Ok ["A.B.x"; "A.C.y"].
Proof.
  apply (tagged_path_resolution tagged_store ["A"]); reflexivity.
Defined.

(** ** Structure rewriting *)

(** Induction over values, with the hypothesis for every element of a
    sequence and every value of a dictionary. *)
Lemma value_nested_ind (P : value -> Prop) :
  P VNone ->
  (forall b, P (VBool b)) ->
  (forall z, P (VInt z)) ->
  (forall s, P (VStr s)) ->
  (forall l, Forall P l -> P (VList l)) ->
  (forall l, Forall P l -> P (VTuple l)) ->
  (forall d, Forall (fun kv => P (snd kv)) d -> P (VDict d)) ->
  forall x, P x.
Proof.
  intros HN HB HI HS HL HT HD.
  fix IH 1. intros [| b | z | s | l | l | d].
  - exact HN.
  - apply HB.
  - apply HI.
  - apply HS.
  - apply HL. induction l as [|y l IHl]; constructor; [apply IH | exact IHl].
  - apply HT. induction l as [|y l IHl]; constructor; [apply IH | exact IHl].
  - apply HD. induction d as [|[k v] d IHd]; constructor;
      [apply IH | exact IHd].
Qed.

Lemma resolve_structure_list (self : Schema) (l : list value)
    (entity_type : option string) (o : options) :
  resolve_structure self (VList l) entity_type o
  = let* l' := rewrite_elements
                 (fun y => resolve_structure self y None o) l in
    Ok (VList l').
Proof.
  cbn [resolve_structure]. f_equal.
  induction l as [|y l IH]; [reflexivity|].
  cbn [rewrite_elements]. now rewrite IH.
Qed.

Lemma resolve_structure_tuple (self : Schema) (l : list value)
    (entity_type : option string) (o : options) :
  resolve_structure self (VTuple l) entity_type o
  = let* l' := rewrite_elements
                 (fun y => resolve_structure self y None o) l in
    Ok (VTuple l').
Proof.
  cbn [resolve_structure]. f_equal.
  induction l as [|y l IH]; [reflexivity|].
  cbn [rewrite_elements]. now rewrite IH.
Qed.

Lemma resolve_structure_entity (self : Schema) (d : list (string * value))
    (entity_type : option string) (E : string) (o : options) :
  recognised_type self entity_type d = Ok (Some E) ->
  resolve_structure self (VDict d) entity_type o
  = let* new_values :=
      rewrite_entity_items
        (fun v => resolve_structure self v None default_options)
        (fun k => resolve_field self E (spec_str k) o) d in
    Ok (VDict new_values).
Proof.
  intros H. cbn [resolve_structure]. rewrite H. cbn [bind]. f_equal.
  clear H. unfold rewrite_entity_items. generalize (@nil (string * value)).
  induction d as [|[k v] d IH]; intros acc; [reflexivity|].
  cbn [for_each fst snd].
  destruct (resolve_structure self v None default_options) as [v'|e];
    [|reflexivity].
  cbn [bind].
  destruct (resolve_field self E (spec_str k) o) as [names|e]; [|reflexivity].
  cbn [bind]. apply IH.
Qed.

Lemma resolve_structure_plain (self : Schema) (d : list (string * value))
    (entity_type : option string) (o : options) :
  recognised_type self entity_type d = Ok None ->
  resolve_structure self (VDict d) entity_type o
  = let* new_values :=
      rewrite_plain_items (fun v => resolve_structure self v None o) d in
    Ok (VDict new_values).
Proof.
  intros H. cbn [resolve_structure]. rewrite H. cbn [bind]. f_equal.
  clear H. unfold rewrite_plain_items. generalize (@nil (string * value)).
  induction d as [|[k v] d IH]; intros acc; [reflexivity|].
  cbn [for_each fst snd].
  destruct (resolve_structure self v None o) as [v'|e]; [|reflexivity].
  cbn [bind]. apply IH.
Qed.

Lemma resolve_structure_unrecognisable (self : Schema)
    (d : list (string * value)) (entity_type : option string) (e : exn)
    (o : options) :
  recognised_type self entity_type d = Raise e ->
  resolve_structure self (VDict d) entity_type o = Raise e.
Proof. intros H. cbn [resolve_structure]. now rewrite H. Qed.

Lemma for_each_ext_in {A B : Type} (f g : B -> A -> result B) (l : list A) :
  (forall acc a, In a l -> f acc a = g acc a) ->
  forall acc, for_each l acc f = for_each l acc g.
Proof.
  induction l as [|a l IH]; intros H acc; [reflexivity|].
  cbn [for_each]. rewrite (H acc a) by now left.
  destruct (g acc a); [|reflexivity]. cbn [bind].
  apply IH. intros acc' a' Hin. apply H. now right.
Qed.

(** C10. A dictionary recognised as an entity record has each value
    rewritten with the default options, whatever options the caller
    gave, and only its keys resolved with the caller's options: two
    option sets that resolve its keys alike rewrite it alike. Any other
    dictionary, a list and a tuple pass the caller's options on. *)
Theorem options_reset_inside_entity_records (self : Schema)
    (entity_type : option string) (o : options) :
  (forall (d : list (string * value)) (E : string),
      recognised_type self entity_type d = Ok (Some E) ->
      resolve_structure self (VDict d) entity_type o
      = (let* new_values :=
           rewrite_entity_items
             (fun v => resolve_structure self v None default_options)
             (fun k => resolve_field self E (spec_str k) o) d in
         Ok (VDict new_values))
      /\ forall o' : options,
          (forall k, In k (map fst d) ->
                     resolve_field self E (spec_str k) o
                     = resolve_field self E (spec_str k) o') ->
          resolve_structure self (VDict d) entity_type o
          = resolve_structure self (VDict d) entity_type o')
  /\ (forall d : list (string * value),
         recognised_type self entity_type d = Ok None ->
         resolve_structure self (VDict d) entity_type o
         = let* new_values :=
             rewrite_plain_items (fun v => resolve_structure self v None o) d in
           Ok (VDict new_values))
  /\ (forall l : list value,
         resolve_structure self (VList l) entity_type o
         = let* l' := rewrite_elements
                        (fun y => resolve_structure self y None o) l in
           Ok (VList l'))
  /\ (forall l : list value,
         resolve_structure self (VTuple l) entity_type o
         = let* l' := rewrite_elements
                        (fun y => resolve_structure self y None o) l in
           Ok (VTuple l')).
Proof.
  split; [|split; [|split]].
  - intros d E H. split; [now apply resolve_structure_entity|].
    intros o' Hkeys.
    rewrite !(resolve_structure_entity self d entity_type E) by assumption.
    f_equal. unfold rewrite_entity_items. apply for_each_ext_in.
    intros acc [k v] Hin. cbn [fst snd].
    rewrite (Hkeys k); [reflexivity|].
    apply in_map_iff. now exists (k, v).
  - intros d. apply resolve_structure_plain.
  - intros l. apply resolve_structure_list.
  - intros l. apply resolve_structure_tuple.
Qed.

(** Under strict options a nested record with an unknown key is rewritten
    leniently inside an entity record, and refused inside a list. *)
Lemma options_reset_inside_entity_records_witness :
  resolve_structure shot_store nesting_record None strict_options
  = Ok nesting_record
  /\ resolve_structure shot_store (VList [unknown_key_record]) None
       strict_options
     = Raise (ValueError (not_a_field "bogus" "Shot")).
Proof.
  destruct (options_reset_inside_entity_records shot_store None strict_options)
    as (Hentity & _ & Hlist & _).
  split.
  - unfold nesting_record.
    destruct (Hentity [("type", VStr "Shot"); ("code", unknown_key_record)]
                      "Shot") as [-> _]; reflexivity.
  - rewrite Hlist. reflexivity.
Defined.

(** C3, as stated, fails: the ["type"] entry is a key like any other,
    resolves to itself and stays in the result. *)
Lemma shot_record_counterexample :
  entities shot_store !! "Shot" = Some shot_entity
  /\ field_aliases shot_entity !! "sg_status" = Some "sg_status_list"
  /\ has_key (fields shot_entity) "sg_status" = false
  /\ has_key (fields shot_entity) "sg_sg_status" = false
  /\ resolve_structure shot_store shot_record None default_options
     = Ok (VDict [("type", VStr "Shot"); ("sg_status_list", VStr "ip")])
  /\ value_eq (VDict [("type", VStr "Shot"); ("sg_status_list", VStr "ip")])
              (VDict [("sg_status_list", VStr "ip")]) = false
  /\ resolve_structure shot_store shot_record None default_options
     <> Ok (VDict [("sg_status_list", VStr "ip")]).
Proof.
  repeat split; try reflexivity. vm_compute. discriminate.
Qed.

(** C3, amended. In a store where [Shot] is a known entity type whose
    [field_aliases] map [sg_status] to [sg_status_list] and that has
    neither a field [sg_status] nor a field [sg_sg_status], the record
    [{"type": "Shot", "sg_status": "ip"}] is rewritten, under the default
    options, to the dictionary with the two entries ["type": "Shot"] and
    ["sg_status_list": "ip"], whichever key is iterated first. *)
Theorem shot_record_rewriting (self : Schema) (shot : Entity) :
  entities self !! "Shot" = Some shot ->
  field_aliases shot !! "sg_status" = Some "sg_status_list" ->
  has_key (fields shot) "sg_status" = false ->
  has_key (fields shot) "sg_sg_status" = false ->
  resolve_structure self
    (VDict [("type", VStr "Shot"); ("sg_status", VStr "ip")])
    None default_options
  = Ok (VDict [("type", VStr "Shot"); ("sg_status_list", VStr "ip")])
  /\ resolve_structure self
       (VDict [("sg_status", VStr "ip"); ("type", VStr "Shot")])
       None default_options
     = Ok (VDict [("sg_status_list", VStr "ip"); ("type", VStr "Shot")]).
Proof.
  intros HE Halias Hno Hnosg.
  assert (Hkey : resolve_field self "Shot" (spec_str "sg_status")
                   default_options = Ok ["sg_status_list"]).
  { cbn [resolve_field]. rewrite resolve_field_str_dotless by reflexivity.
    rewrite (_resolve_field_default self "Shot" "sg_status" shot)
      by (assumption || discriminate || reflexivity).
    change ("sg_" +:+ "sg_status") with "sg_sg_status".
    rewrite Hno, Hnosg.
    cbn [default_options auto_prefix implicit_aliases strict andb].
    rewrite Halias. reflexivity. }
  assert (Htype : resolve_field self "Shot" (spec_str "type")
                    default_options = Ok ["type"]).
  { now apply (resolve_field_structural self "Shot" "type" shot). }
  assert (Hknown : has_key (entities self) "Shot" = true).
  { unfold has_key. now rewrite HE. }
  split.
  - rewrite (resolve_structure_entity self _ None "Shot").
    + unfold rewrite_entity_items. cbn [for_each fst snd resolve_structure bind].
      rewrite Htype. cbn [bind]. rewrite Hkey. reflexivity.
    + unfold recognised_type. cbn. now rewrite Hknown.
  - rewrite (resolve_structure_entity self _ None "Shot").
    + unfold rewrite_entity_items. cbn [for_each fst snd resolve_structure bind].
      rewrite Hkey. cbn [bind]. rewrite Htype. reflexivity.
    + unfold recognised_type. cbn. now rewrite Hknown.
Qed.

Lemma shot_record_rewriting_witness :
  resolve_structure shot_store shot_record None default_options
  = Ok (VDict [("type", VStr "Shot"); ("sg_status_list", VStr "ip")]).
Proof.
  apply (shot_record_rewriting shot_store shot_entity); reflexivity.
Defined.

(** *** Records whose keys are physical names *)

Lemma recognised_type_known (self : Schema) (entity_type : option string)
    (d : list (string * value)) (E : string) :
  recognised_type self entity_type d = Ok (Some E) ->
  exists entity : Entity, entities self !! E = Some entity.
Proof.
  unfold recognised_type.
  match goal with |- context [truthy ?c] => generalize c end.
  intros chosen. destruct (negb (truthy chosen)); [discriminate|].
  destruct chosen as [| b | z | s | l | l | l];
    try discriminate; try (destruct (hashable _); discriminate).
  unfold has_key. destruct (entities self !! s) as [entity|] eqn:Hs;
    [|discriminate].
  intros [= <-]. now exists entity.
Qed.

Lemma recognised_type_raises (self : Schema) (entity_type : option string)
    (d : list (string * value)) (e : exn) :
  recognised_type self entity_type d = Raise e -> e = TypeError.
Proof.
  unfold recognised_type.
  match goal with |- context [truthy ?c] => generalize c end.
  intros chosen. destruct (negb (truthy chosen)); [discriminate|].
  destruct chosen as [| b | z | s | l | l | l];
    try discriminate; try (destruct (hashable _); [discriminate|]);
    now intros [= <-].
Qed.

(** The operator tests of the field grammar fail on a spec that starts
    with no operator. *)
Lemma sigil_free_no_operator (c : ascii) (r : string) :
  sigil_free (String c r) = true ->
  Ascii.eqb c "!" = false /\ Ascii.eqb c "#" = false /\ Ascii.eqb c "$" = false.
Proof.
  cbn [sigil_free]. intros H. apply negb_true_iff in H.
  apply orb_false_iff in H as [H ->]. apply orb_false_iff in H as [-> ->].
  auto.
Qed.

(** A structural key, or a field name without operator and dot, resolves
    to itself under any options, when it resolves at all; it does when it
    starts with an alphanumeric character. *)
Lemma resolve_plain_field (self : Schema) (E k : string) (entity : Entity)
    (o : options) :
  entities self !! E = Some entity ->
  plain_field self E k = true ->
  (resolve_field self E (spec_str k) o = Ok [k]
   \/ exists e, resolve_field self E (spec_str k) o = Raise e)
  /\ (alnum_key self E k = true ->
      resolve_field self E (spec_str k) o = Ok [k]).
Proof.
  intros HE Hk. unfold plain_field in Hk. unfold alnum_key.
  destruct (String.eqb k "id" || String.eqb k "type") eqn:Hstruct.
  - rewrite (resolve_field_structural self E k entity o HE Hstruct). auto.
  - cbn [orb] in *. apply andb_true_iff in Hk as [Hk Hdot].
    apply andb_true_iff in Hk as [Hfield Hfree].
    pose proof Hstruct as Hne.
    apply orb_false_iff in Hne as [Hid%String.eqb_neq Hty%String.eqb_neq].
    unfold is_field in Hfield. rewrite HE in Hfield.
    cbn [resolve_field]. rewrite (resolve_field_str_dotless _ _ _ _ Hdot).
    split.
    + unfold _resolve_field. rewrite HE, Hstruct.
      destruct k as [|c r]; [right; eauto|].
      destruct (sigil_free_no_operator c r Hfree) as (-> & -> & ->).
      destruct (isalnum c); cbn [negb]; [|right; eauto].
      rewrite Hfield. now left.
    + intros Hal.
      rewrite (_resolve_field_default self E k entity o HE Hid Hty Hal).
      now rewrite Hfield.
Qed.

Lemma dict_set_fresh {V : Type} (d : list (string * V)) (k : string) (v : V) :
  ~ In k (map fst d) -> dict_set d k v = d ++ [(k, v)].
Proof.
  induction d as [|[k' v'] d IH]; intros Hk; [reflexivity|].
  cbn [dict_set app]. cbn [map fst In] in Hk.
  destruct (String.eqb_spec k' k) as [->|_]; [tauto|].
  rewrite IH by tauto. reflexivity.
Qed.

Section FixedPoint.

(** The exceptions a rewriting may end with. *)
Variable allowed : exn -> Prop.

Lemma rewrite_elements_fixed (rewrite : value -> result value)
    (l : list value) :
  Forall (fun y => rewrite y = Ok y
                   \/ exists e, allowed e /\ rewrite y = Raise e) l ->
  rewrite_elements rewrite l = Ok l
  \/ exists e, allowed e /\ rewrite_elements rewrite l = Raise e.
Proof.
  induction 1 as [|y l [Hy|(e & He & Hy)] _ IH]; cbn [rewrite_elements];
    [now left| |].
  - rewrite Hy. cbn [bind].
    destruct IH as [->|(e & He & ->)]; cbn [bind]; eauto.
  - rewrite Hy. cbn [bind]. eauto.
Qed.

Lemma rewrite_entity_items_fixed (rewrite : value -> result value)
    (resolve : string -> result (list string)) (d : list (string * value)) :
  NoDup (map fst d) ->
  Forall (fun kv =>
            (rewrite (snd kv) = Ok (snd kv)
             \/ exists e, allowed e /\ rewrite (snd kv) = Raise e)
            /\ (resolve (fst kv) = Ok [fst kv]
                \/ exists e, allowed e /\ resolve (fst kv) = Raise e)) d ->
  rewrite_entity_items rewrite resolve d = Ok d
  \/ exists e, allowed e /\ rewrite_entity_items rewrite resolve d = Raise e.
Proof.
  unfold rewrite_entity_items. intros Hnodup Hall.
  rewrite <- (app_nil_l d) at 2.
  change (map fst d) with (map fst ([] ++ d)) in Hnodup.
  revert Hnodup. generalize (@nil (string * value)) at 1 2 3 4.
  induction Hall as [|[k v] d [Hv Hk] _ IH]; intros acc Hnodup;
    cbn [for_each fst snd] in *.
  - left. now rewrite app_nil_r.
  - destruct Hv as [Hv|(e & He & Hv)]; rewrite Hv; cbn [bind]; [|eauto].
    destruct Hk as [Hk|(e & He & Hk)]; rewrite Hk; cbn [bind]; [|eauto].
    cbn [fold_left]. rewrite dict_set_fresh.
    + replace (acc ++ (k, v) :: d) with ((acc ++ [(k, v)]) ++ d)
        by now rewrite <- app_assoc.
      apply IH. now rewrite <- app_assoc.
    + rewrite map_app in Hnodup.
      apply NoDup_app in Hnodup as (_ & Hdisj & _).
      intros Hin. apply (Hdisj k); [now apply list_elem_of_In|].
      cbn. left.
Qed.

Lemma rewrite_plain_items_fixed (rewrite : value -> result value)
    (d : list (string * value)) :
  NoDup (map fst d) ->
  Forall (fun kv => rewrite (snd kv) = Ok (snd kv)
                    \/ exists e, allowed e /\ rewrite (snd kv) = Raise e) d ->
  rewrite_plain_items rewrite d = Ok d
  \/ exists e, allowed e /\ rewrite_plain_items rewrite d = Raise e.
Proof.
  unfold rewrite_plain_items. intros Hnodup Hall.
  rewrite <- (app_nil_l d) at 2.
  change (map fst d) with (map fst ([] ++ d)) in Hnodup.
  revert Hnodup. generalize (@nil (string * value)) at 1 2 3 4.
  induction Hall as [|[k v] d Hv _ IH]; intros acc Hnodup;
    cbn [for_each fst snd] in *.
  - left. now rewrite app_nil_r.
  - destruct Hv as [Hv|(e & He & Hv)]; rewrite Hv; cbn [bind]; [|eauto].
    rewrite dict_set_fresh.
    + replace (acc ++ (k, v) :: d) with ((acc ++ [(k, v)]) ++ d)
        by now rewrite <- app_assoc.
      apply IH. now rewrite <- app_assoc.
    + rewrite map_app in Hnodup.
      apply NoDup_app in Hnodup as (_ & Hdisj & _).
      intros Hin. apply (Hdisj k); [now apply list_elem_of_In|].
      cbn. left.
Qed.

(** The keys [ok] admits resolve to themselves or end with an allowed
    exception, and [TypeError] is allowed. *)
Variable self : Schema.
Variable ok : Schema -> string -> string -> bool.
Hypothesis allowed_TypeError : allowed TypeError.
Hypothesis ok_resolves :
  forall (E k : string) (entity : Entity) (o : options),
    entities self !! E = Some entity ->
    ok self E k = true ->
    resolve_field self E (spec_str k) o = Ok [k]
    \/ exists e, allowed e /\ resolve_field self E (spec_str k) o = Raise e.

(** A structure with distinct keys, whose resolved keys all resolve to
    themselves, is rewritten to itself, unless an allowed exception
    ends the rewriting. *)
Lemma resolve_structure_fixed (x : value) :
  distinct_keys x = true ->
  forall (entity_type : option string) (o : options),
    resolved_keys ok self x entity_type = true ->
    resolve_structure self x entity_type o = Ok x
    \/ exists e, allowed e /\ resolve_structure self x entity_type o = Raise e.
Proof.
  induction x as [| b | z | s | l IH | l IH | d IH] using value_nested_ind;
    intros Hdist entity_type o Hkeys; try (left; reflexivity).
  - rewrite resolve_structure_list.
    cbn [distinct_keys resolved_keys] in Hdist, Hkeys.
    rewrite forallb_forall in Hdist, Hkeys. rewrite Forall_forall in IH.
    destruct (rewrite_elements_fixed
                (fun y => resolve_structure self y None o) l)
      as [-> | (e & He & ->)]; cbn [bind]; eauto.
    apply Forall_forall. intros y Hy.
    pose proof (proj1 (list_elem_of_In _ _) Hy) as Hin.
    apply IH; [exact Hy | now apply Hdist | now apply Hkeys].
  - rewrite resolve_structure_tuple.
    cbn [distinct_keys resolved_keys] in Hdist, Hkeys.
    rewrite forallb_forall in Hdist, Hkeys. rewrite Forall_forall in IH.
    destruct (rewrite_elements_fixed
                (fun y => resolve_structure self y None o) l)
      as [-> | (e & He & ->)]; cbn [bind]; eauto.
    apply Forall_forall. intros y Hy.
    pose proof (proj1 (list_elem_of_In _ _) Hy) as Hin.
    apply IH; [exact Hy | now apply Hdist | now apply Hkeys].
  - cbn [distinct_keys resolved_keys] in Hdist, Hkeys.
    apply andb_true_iff in Hdist as [Hnodup Hdist].
    apply bool_decide_eq_true in Hnodup.
    rewrite forallb_forall in Hdist. rewrite Forall_forall in IH.
    destruct (recognised_type self entity_type d) as [[E|]|e] eqn:Hrec.
    + destruct (recognised_type_known _ _ _ _ Hrec) as [entity HE].
      rewrite (resolve_structure_entity _ _ _ _ _ Hrec).
      rewrite forallb_forall in Hkeys.
      destruct (rewrite_entity_items_fixed
                  (fun v => resolve_structure self v None default_options)
                  (fun k => resolve_field self E (spec_str k) o) d Hnodup)
        as [-> | (e & He & ->)]; cbn [bind]; eauto.
      apply Forall_forall. intros [k v] Hkv.
      pose proof (proj1 (list_elem_of_In _ _) Hkv) as Hin.
      specialize (Hkeys _ Hin). specialize (Hdist _ Hin).
      cbn in Hkeys, Hdist.
      apply andb_true_iff in Hkeys as [Hk Hv]. split.
      * apply (IH (k, v)); assumption.
      * now apply (ok_resolves E k entity).
    + rewrite (resolve_structure_plain _ _ _ _ Hrec).
      rewrite forallb_forall in Hkeys.
      destruct (rewrite_plain_items_fixed
                  (fun v => resolve_structure self v None o) d Hnodup)
        as [-> | (e & He & ->)]; cbn [bind]; eauto.
      apply Forall_forall. intros [k v] Hkv.
      pose proof (proj1 (list_elem_of_In _ _) Hkv) as Hin.
      specialize (Hkeys _ Hin). specialize (Hdist _ Hin).
      cbn in Hkeys, Hdist.
      apply (IH (k, v)); assumption.
    + rewrite (resolve_structure_unrecognisable _ _ _ _ _ Hrec).
      right. exists e. split; [|reflexivity].
      now rewrite (recognised_type_raises _ _ _ _ Hrec).
Qed.

End FixedPoint.

Lemma resolved_keys_and (ok1 ok2 : Schema -> string -> string -> bool)
    (self : Schema) (x : value) :
  forall entity_type : option string,
    resolved_keys ok1 self x entity_type = true ->
    resolved_keys ok2 self x entity_type = true ->
    resolved_keys (fun s e k => ok1 s e k && ok2 s e k) self x entity_type
    = true.
Proof.
  induction x as [| b | z | s | l IH | l IH | d IH] using value_nested_ind;
    intros entity_type H1 H2; try reflexivity;
    cbn [resolved_keys] in *.
  - rewrite forallb_forall in *. rewrite Forall_forall in IH.
    intros y Hy. apply IH; [now apply list_elem_of_In | auto..].
  - rewrite forallb_forall in *. rewrite Forall_forall in IH.
    intros y Hy. apply IH; [now apply list_elem_of_In | auto..].
  - rewrite Forall_forall in IH.
    destruct (recognised_type self entity_type d) as [[E|]|e];
      [| |reflexivity]; rewrite forallb_forall in *; intros [k v] Hkv;
      specialize (H1 _ Hkv); specialize (H2 _ Hkv); cbn in H1, H2.
    + apply andb_true_iff in H1 as [Hk1 Hv1].
      apply andb_true_iff in H2 as [Hk2 Hv2].
      rewrite Hk1, Hk2. cbn [andb].
      apply (IH (k, v)); [now apply list_elem_of_In | assumption..].
    + apply (IH (k, v)); [now apply list_elem_of_In | assumption..].
Qed.

(** C8, as stated, fails: a field name that starts with an operator, or
    holds a dot, is rewritten again by the second pass. *)
Lemma escaped_key_counterexample :
  distinct_keys escaped_record = true
  /\ resolved_keys is_field escaped_name_store escaped_record None = true
  /\ resolve_structure escaped_name_store escaped_record None default_options
     = Ok (VDict [("type", VStr "E"); ("!x", VInt 1)])
  /\ (let* y := resolve_structure escaped_name_store escaped_record None
                  default_options in
      resolve_structure escaped_name_store y None default_options)
     = Ok (VDict [("type", VStr "E"); ("x", VInt 1)])
  /\ value_eq (VDict [("type", VStr "E"); ("x", VInt 1)])
              (VDict [("type", VStr "E"); ("!x", VInt 1)]) = false
  /\ (let* y := resolve_structure escaped_name_store escaped_record None
                  default_options in
      resolve_structure escaped_name_store y None default_options)
     <> resolve_structure escaped_name_store escaped_record None
          default_options.
Proof.
  repeat split; try reflexivity. vm_compute. discriminate.
Qed.

(** C8, amended. Let every dictionary of [x] have distinct keys, and let
    every key that is resolved against an entity type be ["id"], ["type"]
    or the name of a field of that entity type that starts with none of
    [!], [#], [$] and holds no dot. Then rewriting the result of
    [resolve_structure] again gives the same as rewriting once, and a
    result, when there is one, is [x] itself. There is one when the keys
    start with an alphanumeric character, unless a ["type"] entry is
    unhashable, which raises [TypeError]. *)
Theorem resolve_structure_idempotent (self : Schema) (x : value) :
  distinct_keys x = true ->
  resolved_keys plain_field self x None = true ->
  (let* y := resolve_structure self x None default_options in
   resolve_structure self y None default_options)
  = resolve_structure self x None default_options
  /\ (forall y, resolve_structure self x None default_options = Ok y -> y = x)
  /\ (resolved_keys alnum_key self x None = true ->
      resolve_structure self x None default_options = Ok x
      \/ resolve_structure self x None default_options = Raise TypeError).
Proof.
  intros Hdist Hkeys.
  assert (Hfix : resolve_structure self x None default_options = Ok x
                 \/ exists e, True
                      /\ resolve_structure self x None default_options
                         = Raise e).
  { apply (resolve_structure_fixed (fun _ => True) self plain_field);
      [exact I | | assumption..].
    intros E k entity o HE Hk.
    destruct (resolve_plain_field self E k entity o HE Hk) as [[H|[e H]] _];
      eauto. }
  split; [|split].
  - destruct Hfix as [Hfix|(e & _ & Hfix)]; rewrite Hfix; cbn [bind];
      [exact Hfix | reflexivity].
  - intros y Hy. destruct Hfix as [Hfix|(e & _ & Hfix)]; congruence.
  - intros Halnum.
    destruct (resolve_structure_fixed (fun e => e = TypeError) self
                (fun s e k => plain_field s e k && alnum_key s e k)
                eq_refl) with (x := x) (entity_type := @None string)
                              (o := default_options)
      as [H|(e & -> & H)]; auto.
    + intros E k entity o HE [Hk Hal]%andb_true_iff.
      left. now apply (resolve_plain_field self E k entity o HE Hk).
    + now apply resolved_keys_and.
Qed.

Lemma resolve_structure_idempotent_witness :
  (let* y := resolve_structure shot_store physical_record None
               default_options in
   resolve_structure shot_store y None default_options)
  = Ok physical_record.
Proof.
  destruct (resolve_structure_idempotent shot_store physical_record)
    as [Hidem _]; [reflexivity..|].
  rewrite Hidem. reflexivity.
Defined.

(** * Further properties of the resolvers *)

(** ** Failures of the single-spec resolvers *)

Lemma starts_alnum_head (s : string) :
  starts_alnum s = true ->
  exists c r, s = String c r /\ isalnum c = true
              /\ Ascii.eqb c "!" = false /\ Ascii.eqb c "#" = false
              /\ Ascii.eqb c "$" = false.
Proof.
  destruct s as [|c r]; [discriminate|]. cbn [starts_alnum]. intros H.
  exists c, r. destruct (isalnum_no_operator c H) as (? & ? & ?). auto.
Qed.

(** The default branch of the entity grammar. *)
Lemma resolve_entity_default (self : Schema) (s : string)
    (implicit strict : bool) :
  starts_alnum s = true ->
  resolve_entity self s implicit strict =
    if has_key (entities self) s then Ok [s]
    else match (if implicit then entity_aliases self !! s else None) with
         | Some e => Ok [e]
         | None => if strict then Raise (ValueError (not_an_entity_type s))
                   else Ok [s]
         end.
Proof.
  intros H. destruct (starts_alnum_head s H) as (c & r & -> & Hal & H1 & H2 & H3).
  unfold resolve_entity. now rewrite H1, H2, H3, Hal.
Qed.





(** ** The callers that want exactly one name *)

(** X3. [resolve_one_entity] raises its own [ValueError] in two cases
    only: on a tag that does not have exactly one member, with the number
    of members, and on an undefined [$] alias, with the count 0. Any
    other spec gives one name or the exception of [resolve_entity]. *)
Theorem resolve_one_entity_count_error_iff (self : Schema) (s : string)
    (implicit strict : bool) (m : count_error) :
  resolve_one_entity self s implicit strict = CountError m
  <-> (exists t, s = String "#" t
                 /\ length (default [] (entity_tags self !! t)) <> 1
                 /\ m = returned_entity_types s
                          (length (default [] (entity_tags self !! t))))
      \/ (exists a, s = String "$" a
                    /\ entity_aliases self !! a = None
                    /\ m = returned_entity_types s 0).
Proof.
  unfold resolve_one_entity.
  destruct s as [|c r].
  { cbn. split; [discriminate|].
    intros [(t & H & _) | (a & H & _)]; discriminate. }
  destruct (Ascii.eqb_spec c "!") as [->|Hbang].
  { cbn. split; [discriminate|].
    intros [(t & H & _) | (a & H & _)]; discriminate. }
  destruct (Ascii.eqb_spec c "#") as [->|Hhash].
  { cbn [resolve_entity Ascii.eqb Bool.eqb].
    split.
    - intros H. left. exists r. split; [reflexivity|]. revert H.
      destruct (default [] (entity_tags self !! r)) as [|x [|y l]];
        try discriminate; intros [= <-]; (split; [cbn; lia | reflexivity]).
    - intros [(t & [= <-] & Hn & ->) | (a & H & _)]; [|discriminate].
      revert Hn.
      destruct (default [] (entity_tags self !! r)) as [|x [|y l]];
        intros Hn; [reflexivity | now destruct Hn | reflexivity]. }
  destruct (Ascii.eqb_spec c "$") as [->|Hdollar].
  { cbn [resolve_entity Ascii.eqb Bool.eqb]. split.
    - intros H. right. exists r. split; [reflexivity|].
      destruct (entity_aliases self !! r); [discriminate|].
      injection H as <-. auto.
    - intros [(t & H & _) | (a & [= <-] & -> & ->)]; [discriminate|].
      reflexivity. }
  split.
  - unfold resolve_entity.
    destruct (Ascii.eqb_spec c "!"); [contradiction|].
    destruct (Ascii.eqb_spec c "#"); [contradiction|].
    destruct (Ascii.eqb_spec c "$"); [contradiction|].
    destruct (negb (isalnum c)); [discriminate|].
    destruct (has_key (entities self) (String c r)); [discriminate|].
    destruct (if implicit then entity_aliases self !! String c r else None);
      [discriminate|].
    destruct strict; discriminate.
  - intros [(t & [= -> _] & _) | (a & [= -> _] & _)]; contradiction.
Qed.

Lemma resolve_one_entity_count_error_iff_witness :
  resolve_one_entity tagged_store "#t" true false
  = CountError (returned_entity_types "#t" 2)
  /\ resolve_one_entity tagged_store "$nobody" true true
     = CountError (returned_entity_types "$nobody" 0).
Proof.
  split.
  - apply (proj2 (resolve_one_entity_count_error_iff tagged_store "#t"
                    true false _)).
    left. exists "t". repeat split. discriminate.
  - apply (proj2 (resolve_one_entity_count_error_iff tagged_store "$nobody"
                    true true _)).
    right. exists "nobody". repeat split.
Defined.

(** A field spec that is no tag resolves, when it does, to one name. *)
Lemma _resolve_field_one_name (self : Schema) (E s : string) (o : options)
    (names : list string) :
  is_tag s = false ->
  _resolve_field self E s o = Ok names -> length names = 1.
Proof.
  intros Htag. unfold _resolve_field.
  destruct (entities self !! E) as [entity|]; [|discriminate].
  destruct (String.eqb s "id" || String.eqb s "type"); [now intros [= <-]|].
  destruct s as [|c r]; [discriminate|]. cbn [is_tag] in Htag. rewrite Htag.
  destruct (Ascii.eqb c "!"); [now intros [= <-]|].
  destruct (Ascii.eqb c "$").
  { destruct (field_aliases entity !! r); now intros [= <-]. }
  destruct (negb (isalnum c)); [discriminate|].
  destruct (has_key (fields entity) (String c r)); [now intros [= <-]|].
  destruct (auto_prefix o && has_key (fields entity) ("sg_" +:+ String c r));
    [now intros [= <-]|].
  destruct (if implicit_aliases o then field_aliases entity !! String c r
            else None); [now intros [= <-]|].
  destruct (strict o); [discriminate | now intros [= <-]].
Qed.

(** X4. On a spec without a dot, [resolve_one_field] raises its own
    [ValueError] only for a tag that does not have exactly one member on
    a known entity type. In particular an undefined [$] alias is no
    ambiguity: the spec itself is the one name. *)
Theorem resolve_one_field_count_error_iff (self : Schema) (E s : string)
    (o : options) (m : count_error) :
  dotless s = true ->
  resolve_one_field self E (spec_str s) o = CountError m
  <-> exists t entity,
        s = String "#" t
        /\ entities self !! E = Some entity
        /\ length (default [] (field_tags entity !! t)) <> 1
        /\ m = returned_fields (spec_str s)
                 (length (default [] (field_tags entity !! t))) E.
Proof.
  intros Hdot. unfold resolve_one_field. cbn [resolve_field].
  rewrite (resolve_field_str_dotless _ _ _ _ Hdot).
  destruct (is_tag s) eqn:Htag.
  - destruct s as [|c r]; [discriminate|]. cbn [is_tag] in Htag.
    apply Ascii.eqb_eq in Htag as ->.
    unfold _resolve_field.
    destruct (entities self !! E) as [entity|] eqn:HE.
    + cbn [String.eqb Ascii.eqb Bool.eqb orb andb].
      split.
      * intros H. exists r, entity. split; [reflexivity|]. split; [reflexivity|].
        revert H.
        destruct (default [] (field_tags entity !! r)) as [|x [|y l]];
          try discriminate; intros [= <-]; (split; [cbn; lia | reflexivity]).
      * intros (t & entity' & [= <-] & [= <-] & Hn & ->). revert Hn.
        destruct (default [] (field_tags entity !! r)) as [|x [|y l]];
          intros Hn; [reflexivity | now destruct Hn | reflexivity].
    + split; [discriminate|]. intros (t & entity & _ & H & _). discriminate.
  - split.
    + destruct (_resolve_field self E s o) as [names|e] eqn:Hr; [|discriminate].
      pose proof (_resolve_field_one_name self E s o names Htag Hr) as Hlen.
      destruct names as [|x [|y l]]; discriminate.
    + intros (t & entity & -> & _). discriminate Htag.
Qed.

Lemma resolve_one_field_count_error_iff_witness :
  resolve_one_field shot_store "Shot" (spec_str "#nothing") default_options
  = CountError (returned_fields (spec_str "#nothing") 0 "Shot")
  /\ resolve_one_field shot_store "Shot" (spec_str "$FROM") default_options
     = One "$FROM".
Proof.
  split; [|reflexivity].
  apply (proj2 (resolve_one_field_count_error_iff shot_store "Shot" "#nothing"
                  default_options _ eq_refl)).
  exists "nothing", shot_entity. repeat split. discriminate.
Defined.

(** ** Lists of field specs *)

Lemma field_spec_nested_ind (P : field_spec_arg -> Prop) :
  (forall s, P (spec_str s)) ->
  (forall l, Forall P l -> P (spec_seq l)) ->
  forall x, P x.
Proof.
  intros Hstr Hseq. fix IH 1. intros [s|l]; [apply Hstr|].
  apply Hseq. induction l as [|y l IHl]; constructor; [apply IH | exact IHl].
Qed.

Lemma resolve_field_spec_seq (self : Schema) (E : string)
    (l : list field_spec_arg) (o : options) :
  resolve_field self E (spec_seq l) o
  = resolve_field_seq (fun x => resolve_field self E x o) l [].
Proof.
  cbn [resolve_field]. generalize (@nil string).
  induction l as [|x l IH]; intros res; [reflexivity|].
  cbn [resolve_field_seq].
  destruct (resolve_field self E x o); [|reflexivity]. cbn [bind]. apply IH.
Qed.

Lemma resolve_field_seq_acc (resolve : field_spec_arg -> result (list string))
    (l : list field_spec_arg) :
  forall res : list string,
    resolve_field_seq resolve l res
    = let* r := resolve_field_seq resolve l [] in Ok (res ++ r).
Proof.
  induction l as [|x l IH]; intros res; cbn [resolve_field_seq].
  - cbn [bind]. now rewrite app_nil_r.
  - destruct (resolve x) as [xs|e]; [|reflexivity]. cbn [bind app].
    rewrite (IH (res ++ xs)), (IH xs).
    destruct (resolve_field_seq resolve l []); [|reflexivity].
    cbn [bind]. now rewrite app_assoc.
Qed.

Lemma resolve_field_seq_app (resolve : field_spec_arg -> result (list string))
    (l1 l2 : list field_spec_arg) :
  forall res : list string,
    resolve_field_seq resolve (l1 ++ l2) res
    = let* a := resolve_field_seq resolve l1 res in
      resolve_field_seq resolve l2 a.
Proof.
  induction l1 as [|x l1 IH]; intros res; [reflexivity|].
  cbn [app resolve_field_seq].
  destruct (resolve x) as [xs|e]; [|reflexivity]. cbn [bind]. apply IH.
Qed.

(** X5. A list (or tuple) of field specs resolves to the results of its
    members, in order and with repetitions; so the resolution of a
    concatenation is the concatenation of the resolutions, the first
    exception winning, and a list nested in a list resolves as if its
    members were written in place. *)
Theorem resolve_field_of_lists (self : Schema) (E : string) (o : options) :
  (forall (l : list field_spec_arg) (rs : list (list string)),
      Forall2 (fun x r => resolve_field self E x o = Ok r) l rs ->
      resolve_field self E (spec_seq l) o = Ok (concat rs))
  /\ (forall l1 l2 : list field_spec_arg,
         resolve_field self E (spec_seq (l1 ++ l2)) o
         = let* a := resolve_field self E (spec_seq l1) o in
           let* b := resolve_field self E (spec_seq l2) o in
           Ok (a ++ b))
  /\ (forall l1 l2 : list field_spec_arg,
         resolve_field self E (spec_seq (spec_seq l1 :: l2)) o
         = resolve_field self E (spec_seq (l1 ++ l2)) o).
Proof.
  assert (Happ : forall l1 l2 : list field_spec_arg,
             resolve_field self E (spec_seq (l1 ++ l2)) o
             = let* a := resolve_field self E (spec_seq l1) o in
               let* b := resolve_field self E (spec_seq l2) o in
               Ok (a ++ b)).
  { intros l1 l2. rewrite !resolve_field_spec_seq, resolve_field_seq_app.
    destruct (resolve_field_seq _ l1 []) as [a|e]; [|reflexivity].
    cbn [bind]. apply resolve_field_seq_acc. }
  split; [|split].
  - intros l rs H. rewrite resolve_field_spec_seq.
    induction H as [|x r l rs Hx _ IH]; [reflexivity|].
    cbn [resolve_field_seq concat]. rewrite Hx. cbn [bind app].
    rewrite resolve_field_seq_acc, IH. reflexivity.
  - exact Happ.
  - intros l1 l2. rewrite Happ.
    change (spec_seq l1 :: l2) with ([spec_seq l1] ++ l2). rewrite Happ.
    f_equal. rewrite (resolve_field_spec_seq self E [spec_seq l1]).
    cbn [resolve_field_seq].
    destruct (resolve_field self E (spec_seq l1) o); reflexivity.
Qed.

Lemma resolve_field_of_lists_witness :
  resolve_field shot_store "Shot"
    (spec_seq [spec_str "code"; spec_seq [spec_str "sg_status"; spec_str "code"]])
    default_options
  = Ok ["code"; "sg_status_list"; "code"].
Proof.
  destruct (resolve_field_of_lists shot_store "Shot" default_options)
    as (Hall & _ & _).
  apply (Hall _ [["code"]; ["sg_status_list"; "code"]]).
  repeat constructor.
Defined.

(** ** Strict mode *)

Lemma for_each_impl {A B : Type} (f g : B -> A -> result B) (l : list A) :
  (forall acc a r, f acc a = Ok r -> g acc a = Ok r) ->
  forall acc r, for_each l acc f = Ok r -> for_each l acc g = Ok r.
Proof.
  intros Hfg. induction l as [|a l IH]; intros acc r; [auto|].
  cbn [for_each]. destruct (f acc a) as [acc'|e] eqn:Hf; [|discriminate].
  rewrite (Hfg _ _ _ Hf). cbn [bind]. apply IH.
Qed.

Lemma resolve_entity_lenient (self : Schema) (s : string) (implicit : bool)
    (names : list string) :
  resolve_entity self s implicit true = Ok names ->
  resolve_entity self s implicit false = Ok names.
Proof.
  unfold resolve_entity. destruct s as [|c r]; [discriminate|].
  repeat match goal with
         | |- context [if ?b then _ else _] => destruct b; try easy
         | |- context [match ?x with Some _ => _ | None => _ end] =>
             destruct x; try easy
         end.
Qed.

Lemma _resolve_field_lenient (self : Schema) (E s : string) (o : options)
    (names : list string) :
  _resolve_field self E s o = Ok names ->
  _resolve_field self E s (lenient o) = Ok names.
Proof.
  unfold _resolve_field, lenient. cbn [auto_prefix implicit_aliases strict].
  destruct (entities self !! E) as [entity|]; [|discriminate].
  destruct (String.eqb s "id" || String.eqb s "type"); [easy|].
  destruct s as [|c r]; [discriminate|].
  destruct (Ascii.eqb c "!"); [easy|].
  destruct (Ascii.eqb c "#"); [easy|].
  destruct (Ascii.eqb c "$"); [easy|].
  destruct (negb (isalnum c)); [easy|].
  destruct (has_key (fields entity) (String c r)); [easy|].
  destruct (auto_prefix o && has_key (fields entity) ("sg_" +:+ String c r));
    [easy|].
  destruct (if implicit_aliases o then field_aliases entity !! String c r
            else None); [easy|].
  destruct (strict o); easy.
Qed.

Lemma resolve_pair_lenient (self : Schema) (o : options) (p : string * string)
    (pairs : list (string * string)) :
  resolve_pair self o p = Ok pairs ->
  resolve_pair self (lenient o) p = Ok pairs.
Proof.
  unfold resolve_pair. cbn [lenient implicit_aliases strict].
  destruct (resolve_entity self (fst p) (implicit_aliases o) (strict o))
    as [ets|e] eqn:He; [|discriminate].
  assert (He' : resolve_entity self (fst p) (implicit_aliases o) false = Ok ets).
  { destruct (strict o); [now apply resolve_entity_lenient | exact He]. }
  rewrite He'. cbn [bind]. intros Hp.
  refine (for_each_impl _ _ _ _ _ _ Hp).
  intros acc e r.
  destruct (_resolve_field self e (snd p) o) as [names|x] eqn:Hn;
    [|discriminate].
  now rewrite (_resolve_field_lenient _ _ _ _ _ Hn).
Qed.

Lemma resolve_field_str_lenient (self : Schema) (E s : string) (o : options)
    (names : list string) :
  resolve_field_str self E s o = Ok names ->
  resolve_field_str self E s (lenient o) = Ok names.
Proof.
  unfold resolve_field_str.
  destruct (length (split "." s) =? 1)%nat; [apply _resolve_field_lenient|].
  destruct (for_each (spec_pairs E (split "." s)) [] _) as [sets|e] eqn:Hsets;
    [|discriminate].
  intros [= <-].
  assert (H : for_each (spec_pairs E (split "." s)) []
                (fun sets p => let* resolved_pairs :=
                                 resolve_pair self (lenient o) p in
                               Ok (sets ++ [resolved_pairs]))
              = Ok sets).
  { refine (for_each_impl _ _ _ _ _ _ Hsets). intros acc p r.
    destruct (resolve_pair self o p) as [pairs|e] eqn:Hp; [|discriminate].
    now rewrite (resolve_pair_lenient _ _ _ _ Hp). }
  now rewrite H.
Qed.

(** X6. Strict mode only refuses: whatever [resolve_field] returns under
    strict options, for a string, a dotted path or a list of specs, it
    returns under the same options with [strict] unset. *)
Theorem resolve_field_lenient (self : Schema) (E : string)
    (field_spec : field_spec_arg) (o : options) (names : list string) :
  resolve_field self E field_spec o = Ok names ->
  resolve_field self E field_spec (lenient o) = Ok names.
Proof.
  revert names.
  induction field_spec as [s|l IH] using field_spec_nested_ind; intros names.
  - apply resolve_field_str_lenient.
  - rewrite !resolve_field_spec_seq. generalize (@nil string).
    induction IH as [|x l Hx _ IHl]; intros res; [auto|].
    cbn [resolve_field_seq].
    destruct (resolve_field self E x o) as [xs|e] eqn:Hxs; [|discriminate].
    rewrite (Hx _ eq_refl). cbn [bind]. apply IHl.
Qed.

Lemma resolve_field_lenient_witness :
  resolve_field shot_store "Shot"
    (spec_seq [spec_str "code.Shot.code"; spec_str "type"])
    (lenient strict_options)
  = Ok ["code.Shot.code"; "type"].
Proof.
  apply (resolve_field_lenient shot_store "Shot" _ strict_options).
  reflexivity.
Defined.

(** ** More on dotted paths *)

Lemma hops_cons (e f : string) (rest : list string) :
  hops e (f :: rest)
  = (e, f) :: match rest with
              | [] => []
              | next_entity :: rest' => hops next_entity rest'
              end.
Proof. reflexivity. Qed.

(** X7. In a dotted spec the root is itself read as an entity spec: two
    roots that the entity resolver resolves alike give the same result,
    so an alias, an escape or a tag may stand for the root there, which
    single-field resolution refuses. *)
Theorem dotted_root_is_entity_spec (self : Schema) (R R' s : string)
    (o : options) :
  length (split "." s) <> 1 ->
  resolve_entity self R (implicit_aliases o) (strict o)
  = resolve_entity self R' (implicit_aliases o) (strict o) ->
  resolve_field self R (spec_str s) o = resolve_field self R' (spec_str s) o.
Proof.
  intros Hlen HR. cbn [resolve_field]. unfold resolve_field_str.
  apply Nat.eqb_neq in Hlen. rewrite Hlen, !spec_pairs_hops.
  destruct (split "." s) as [|f rest]; [reflexivity|].
  rewrite !hops_cons. cbn [for_each]. unfold resolve_pair at 1 3.
  cbn [fst snd]. now rewrite HR.
Qed.

Lemma dotted_root_is_entity_spec_witness :
  resolve_field aliased_store "$S" (spec_str "code.Task.entity") default_options
  = resolve_field aliased_store "Shot" (spec_str "code.Task.entity")
      default_options
  /\ resolve_field aliased_store "Shot" (spec_str "code.Task.entity")
       default_options = Ok ["code.Task.entity"]
  /\ resolve_field aliased_store "$S" (spec_str "code") default_options
     = Raise (ValueError (not_an_entity_type "$S")).
Proof.
  split; [|split; reflexivity].
  apply dotted_root_is_entity_spec; [cbn; lia | reflexivity].
Defined.

Lemma flat_map_nil {A B : Type} (l : list A) :
  flat_map (fun _ : A => @nil B) l = [].
Proof. induction l as [|a l IH]; [reflexivity | exact IH]. Qed.

Lemma cartesian_empty_set {A : Type} (sets : list (list A)) :
  In [] sets -> cartesian sets = [].
Proof.
  induction sets as [|s sets IH]; [contradiction|].
  intros [->|Hin]; [reflexivity|].
  cbn [cartesian]. rewrite (IH Hin). apply flat_map_nil.
Qed.

(** X8. A dotted spec one of whose hops has no candidate, such as a hop
    through an undefined tag, resolves to the empty list once every hop
    has been resolved: no exception is raised for it. *)
Theorem dotted_empty_hop (self : Schema) (E s : string) (o : options)
    (sets : list (list (string * string))) :
  length (split "." s) <> 1 ->
  Forall2 (hop_candidates self o) (hops E (split "." s)) sets ->
  In [] sets ->
  resolve_field self E (spec_str s) o = Ok [].
Proof.
  intros Hlen Hsets Hempty. cbn [resolve_field].
  rewrite (resolve_field_str_dotted self E s o sets Hlen Hsets).
  now rewrite (cartesian_empty_set sets Hempty).
Qed.

Lemma dotted_empty_hop_witness :
  resolve_field tagged_store "A" (spec_str "A.#nothing.field") default_options
  = Ok [].
Proof.
  apply (dotted_empty_hop tagged_store "A" "A.#nothing.field" default_options
           [[("A", "A")]; []]).
  - cbn. lia.
  - change (hops "A" (split "." "A.#nothing.field"))
      with [("A", "A"); ("#nothing", "field")].
    repeat constructor.
    + exists ["A"], [["A"]]. repeat split. repeat constructor.
    + exists [], []. repeat split. constructor.
  - right. left. reflexivity.
Defined.

Lemma join_split (sep : ascii) (s : string) :
  join (String sep EmptyString) (split sep s) = s.
Proof.
  induction s as [|c r IH]; [reflexivity|]. cbn [split].
  destruct (Ascii.eqb_spec c sep) as [->|_].
  - pose proof (split_not_nil sep r) as Hne.
    destruct (split sep r) as [|h t]; [contradiction|].
    cbn [join] in *. now rewrite IH.
  - pose proof (split_not_nil sep r) as Hne.
    destruct (split sep r) as [|h t]; [contradiction|].
    destruct t as [|h' t]; cbn [join] in *; now rewrite <- IH.
Qed.

Lemma join_segment (e f : string) (tl : list string) :
  join "." ((e +:+ "." +:+ f) :: tl) = e +:+ "." +:+ join "." (f :: tl).
Proof.
  destruct tl as [|x tl]; [reflexivity|].
  cbn [join]. now rewrite !append_assoc.
Qed.

(** The path of the hops of an odd number of tokens is the tokens joined
    again. *)
Lemma path_of_hops (n : nat) :
  forall (tokens : list string) (e : string),
    length tokens = S (2 * n) ->
    path_of (hops e tokens) = join "." tokens.
Proof.
  unfold path_of.
  induction n as [|n IH]; intros tokens e Hlen.
  - destruct tokens as [|f [|? ?]]; try discriminate Hlen. reflexivity.
  - destruct tokens as [|f [|e' rest]]; try discriminate Hlen.
    assert (Hrest : length rest = S (2 * n)) by (simpl in Hlen; lia).
    specialize (IH rest e' Hrest).
    destruct rest as [|f' rest']; [discriminate Hrest|].
    rewrite hops_cons. rewrite hops_cons in IH. cbn [map fst snd] in *.
    rewrite (hops_cons e' f' rest'). cbn [map fst snd].
    change (join "." (f :: e' :: f' :: rest'))
      with (f +:+ "." +:+ join "." (e' :: f' :: rest')).
    change (join "." (e' :: f' :: rest'))
      with (e' +:+ "." +:+ join "." (f' :: rest')).
    rewrite <- IH.
    match goal with
    | |- join "." (f :: ?seg :: ?tl) = _ =>
        change (join "." (f :: seg :: tl))
          with (f +:+ "." +:+ join "." (seg :: tl))
    end.
    now rewrite join_segment.
Qed.

Lemma cartesian_singletons {A : Type} (l : list A) :
  cartesian (map (fun a => [a]) l) = [l].
Proof.
  induction l as [|a l IH]; [reflexivity|].
  cbn [map cartesian flat_map]. rewrite IH. reflexivity.
Qed.

Lemma physical_hop_candidates (self : Schema) (o : options)
    (hop : string * string) :
  physical_hop self hop = true ->
  hop_candidates self o hop [hop]
  /\ _resolve_field self (fst hop) (snd hop) o = Ok [snd hop].
Proof.
  destruct hop as [e f]. unfold physical_hop. cbn [fst snd].
  intros [[[He Hk]%andb_true_iff Hplain]%andb_true_iff Hal]%andb_true_iff.
  assert (Hent : exists entity, entities self !! e = Some entity).
  { unfold has_key in Hk. destruct (entities self !! e); [eauto|discriminate]. }
  destruct Hent as [entity Hent].
  assert (Hf : _resolve_field self e f o = Ok [f]).
  { destruct (resolve_plain_field self e f entity o Hent Hplain) as [_ H].
    specialize (H Hal). cbn [resolve_field] in H.
    rewrite resolve_field_str_dotless in H; [exact H|].
    unfold plain_field in Hplain.
    destruct (String.eqb_spec f "id") as [->|_]; [reflexivity|].
    destruct (String.eqb_spec f "type") as [->|_]; [reflexivity|].
    cbn [orb] in Hplain. now apply andb_true_iff in Hplain as [_ ?]. }
  split; [|exact Hf].
  exists [e], [[f]]. cbn [fst snd]. repeat split.
  - rewrite (resolve_entity_default self e _ _ He). now rewrite Hk.
  - repeat constructor. exact Hf.
Qed.

(** X9. A path of physical names resolves to itself: when the tokens of
    a field spec, an odd number of them, pair into hops of a known
    entity type and one of its fields (or ["id"] or ["type"]), all
    alphanumeric, [resolve_field] returns the one-element list holding
    the spec, under any options. *)
Theorem physical_path_resolves_to_itself (self : Schema) (E s : string)
    (o : options) :
  Nat.Odd (length (split "." s)) ->
  forallb (physical_hop self) (hops E (split "." s)) = true ->
  resolve_field self E (spec_str s) o = Ok [s].
Proof.
  intros [n Hn] Hphys. cbn [resolve_field].
  replace (2 * n + 1) with (S (2 * n)) in Hn by lia.
  destruct n as [|n].
  - unfold resolve_field_str. rewrite Hn. cbn [Nat.eqb].
    pose proof (join_split "." s) as Hjoin.
    destruct (split "." s) as [|f [|? ?]]; try discriminate Hn.
    cbn [join] in Hjoin. subst f. cbn [hops forallb] in Hphys.
    apply andb_true_iff in Hphys as [Hphys _].
    exact (proj2 (physical_hop_candidates self o (E, s) Hphys)).
  - rewrite (resolve_field_str_dotted self E s o
               (map (fun h => [h]) (hops E (split "." s)))).
    + rewrite cartesian_singletons. cbn [map].
      now rewrite (path_of_hops (S n) _ E Hn), join_split.
    + rewrite Hn. lia.
    + rewrite forallb_forall in Hphys.
      induction (hops E (split "." s)) as [|h l IH]; [constructor|].
      cbn [map]. constructor.
      * apply physical_hop_candidates, Hphys. now left.
      * apply IH. intros x Hx. apply Hphys. now right.
Qed.

Lemma physical_path_resolves_to_itself_witness :
  resolve_field aliased_store "Task" (spec_str "entity.Shot.code.Task.id")
    strict_options
  = Ok ["entity.Shot.code.Task.id"].
Proof.
  apply physical_path_resolves_to_itself; [|reflexivity].
  exists 2. reflexivity.
Defined.

Lemma hops_odd_snoc (n : nat) :
  forall (pre : list string) (e t : string),
    length pre = S (2 * n) -> hops e (pre ++ [t]) = hops e pre.
Proof.
  induction n as [|n IH]; intros pre e t Hlen.
  - destruct pre as [|f [|? ?]]; try discriminate Hlen. reflexivity.
  - destruct pre as [|f [|e' pre']]; try discriminate Hlen.
    cbn [app hops]. f_equal. apply IH. simpl in Hlen. lia.
Qed.

Lemma one_hop_paths (E : string) (names : list string) :
  map path_of (cartesian [map (fun f => (E, f)) names]) = names.
Proof.
  cbn [cartesian].
  induction names as [|f names IH]; [reflexivity|].
  cbn [map flat_map app path_of join]. f_equal. exact IH.
Qed.

(** X10. A dotted spec with an even number of tokens resolves as the spec
    without its last token; for a spec of two tokens, whose shortening is
    no longer dotted, this needs the root to resolve to itself as an
    entity spec. *)
Theorem even_dotted_spec_drops_last_token (self : Schema) (E s1 s2 : string)
    (o : options) (pre : list string) (t : string) :
  split "." s1 = pre ++ [t] ->
  split "." s2 = pre ->
  Nat.Odd (length pre) ->
  (length pre = 1 ->
   resolve_entity self E (implicit_aliases o) (strict o) = Ok [E]) ->
  resolve_field self E (spec_str s1) o = resolve_field self E (spec_str s2) o.
Proof.
  intros H1 H2 [n Hn] Hroot. cbn [resolve_field]. unfold resolve_field_str.
  replace (2 * n + 1) with (S (2 * n)) in Hn by lia.
  rewrite H1, H2, length_app, Hn, !spec_pairs_hops,
    (hops_odd_snoc n pre E t Hn).
  cbn [length]. replace (S (2 * n) + 1 =? 1)%nat with false
    by (symmetry; apply Nat.eqb_neq; lia).
  destruct n as [|n]; [|reflexivity].
  cbn [Nat.eqb Nat.mul].
  pose proof (join_split "." s2) as Hjoin. rewrite H2 in Hjoin.
  destruct pre as [|f [|? ?]]; try discriminate Hn.
  cbn [join] in Hjoin. subst f.
  cbn [hops for_each]. unfold resolve_pair. cbn [fst snd].
  rewrite (Hroot eq_refl). cbn [bind for_each].
  destruct (_resolve_field self E s2 o) as [names|e]; [|reflexivity].
  cbn [bind app]. rewrite product_cartesian. f_equal.
  rewrite <- (one_hop_paths E names) at 2.
  apply map_ext, render_path_of.
Qed.

Lemma even_dotted_spec_drops_last_token_witness :
  resolve_field aliased_store "Task" (spec_str "entity.Shot.code.Task")
    default_options
  = resolve_field aliased_store "Task" (spec_str "entity.Shot.code")
      default_options
  /\ resolve_field aliased_store "Task" (spec_str "#core.x") default_options
     = resolve_field aliased_store "Task" (spec_str "#core") default_options.
Proof.
  split.
  - apply (even_dotted_spec_drops_last_token _ _ _ _ _
             ["entity"; "Shot"; "code"] "Task"); try reflexivity.
    exists 1. reflexivity.
  - apply (even_dotted_spec_drops_last_token _ _ _ _ _ ["#core"] "x");
      try reflexivity.
    exists 0. reflexivity.
Defined.

(** * Further properties of the structure rewriter *)

(** ** Sequences *)

Lemma rewrite_elements_Forall2 (rewrite : value -> result value)
    (l l' : list value) :
  rewrite_elements rewrite l = Ok l'
  <-> Forall2 (fun a b => rewrite a = Ok b) l l'.
Proof.
  revert l'. induction l as [|a l IH]; intros l'; cbn [rewrite_elements].
  - split; [intros [= <-]; constructor | now inversion 1].
  - split.
    + destruct (rewrite a) as [b|e] eqn:Ha; [|discriminate]. cbn [bind].
      destruct (rewrite_elements rewrite l) as [m|e] eqn:Hl; [|discriminate].
      intros [= <-]. constructor; [exact Ha | now apply IH].
    + inversion 1 as [|? b ? m Ha Hl]; subst. rewrite Ha. cbn [bind].
      apply IH in Hl. now rewrite Hl.
Qed.

(** X11. A list is rewritten to a list and a tuple to a tuple, element by
    element, in order, with the caller's options and without the entity
    type given for the sequence itself: the rewriting returns exactly
    when the rewriting of every element does, and the result has the
    rewritten elements at the same places. *)
Theorem sequences_are_rewritten_elementwise (self : Schema) (l : list value)
    (entity_type : option string) (o : options) (y : value) :
  (resolve_structure self (VList l) entity_type o = Ok y
   <-> exists l', y = VList l'
                  /\ Forall2 (fun a b => resolve_structure self a None o = Ok b)
                             l l')
  /\ (resolve_structure self (VTuple l) entity_type o = Ok y
      <-> exists l', y = VTuple l'
                     /\ Forall2 (fun a b => resolve_structure self a None o = Ok b)
                                l l').
Proof.
  rewrite resolve_structure_list, resolve_structure_tuple.
  split; (split;
    [ destruct (rewrite_elements _ l) as [l'|e] eqn:H; [|discriminate];
      intros [= <-]; exists l'; split; [reflexivity|];
      now apply rewrite_elements_Forall2
    | intros (l' & -> & H); apply rewrite_elements_Forall2 in H;
      now rewrite H ]).
Qed.

(** ** Structures without entity records *)

(** X12. A structure none of whose keys is resolved against an entity
    type (no dictionary in it is recognised as an entity record with
    items) is returned as it is, unless a ["type"] entry is unhashable,
    which raises [TypeError]. *)
Theorem untyped_structure_is_unchanged (self : Schema) (x : value)
    (entity_type : option string) (o : options) :
  distinct_keys x = true ->
  resolved_keys no_key self x entity_type = true ->
  resolve_structure self x entity_type o = Ok x
  \/ resolve_structure self x entity_type o = Raise TypeError.
Proof.
  intros Hdist Hkeys.
  destruct (resolve_structure_fixed (fun e => e = TypeError) self no_key
              eq_refl) with (x := x) (entity_type := entity_type) (o := o)
    as [H|(e & -> & H)]; auto.
  intros E k entity o' _ Hk. discriminate Hk.
Qed.

Lemma untyped_structure_is_unchanged_witness :
  resolve_structure shot_store untyped_structure None strict_options
  = Ok untyped_structure.
Proof.
  destruct (untyped_structure_is_unchanged shot_store untyped_structure None
              strict_options eq_refl eq_refl) as [H|H];
    [exact H | discriminate H].
Defined.

(** ** Dictionaries *)

Lemma dict_get_set_eq {V : Type} (d : list (string * V)) (k : string) (v : V) :
  dict_get (dict_set d k v) k = Some v.
Proof.
  induction d as [|[k' v'] d IH]; cbn [dict_set dict_get].
  - now rewrite String.eqb_refl.
  - destruct (String.eqb k' k) eqn:Hk; cbn [dict_get]; now rewrite Hk.
Qed.

Lemma dict_get_set_ne {V : Type} (d : list (string * V)) (k k' : string)
    (v : V) :
  k <> k' -> dict_get (dict_set d k v) k' = dict_get d k'.
Proof.
  intros Hne. induction d as [|[k0 v0] d IH]; cbn [dict_set dict_get].
  - apply String.eqb_neq in Hne. now rewrite Hne.
  - destruct (String.eqb_spec k0 k) as [->|Hk0]; cbn [dict_get].
    + apply String.eqb_neq in Hne. now rewrite Hne.
    + destruct (String.eqb k0 k'); [reflexivity | exact IH].
Qed.

Lemma dict_set_keys {V : Type} (d : list (string * V)) (k : string) (v : V)
    (f : string) :
  In f (map fst (dict_set d k v)) <-> f = k \/ In f (map fst d).
Proof.
  induction d as [|[k' v'] d IH]; cbn [dict_set map fst In].
  - intuition.
  - destruct (String.eqb_spec k' k) as [->|Hk]; cbn [map fst In].
    + intuition.
    + rewrite IH. intuition.
Qed.

Lemma dict_set_NoDup {V : Type} (d : list (string * V)) (k : string) (v : V) :
  NoDup (map fst d) -> NoDup (map fst (dict_set d k v)).
Proof.
  induction d as [|[k' v'] d IH]; cbn [dict_set map fst]; intros Hnd.
  - repeat constructor. inversion 1.
  - destruct (String.eqb_spec k' k) as [->|Hk]; cbn [map fst]; [exact Hnd|].
    apply NoDup_cons in Hnd as [Hnotin Hnd]. apply NoDup_cons. split.
    + rewrite list_elem_of_In, dict_set_keys, <- list_elem_of_In. intuition.
    + now apply IH.
Qed.

Lemma dict_get_app_ne {V : Type} (d1 d2 : list (string * V)) (k k' : string)
    (v : V) :
  k <> k' -> dict_get (d1 ++ (k, v) :: d2) k' = dict_get (d1 ++ d2) k'.
Proof.
  intros Hne. induction d1 as [|[k0 v0] d1 IH]; cbn [app dict_get].
  - apply String.eqb_neq in Hne. now rewrite Hne.
  - now rewrite IH.
Qed.

(** The assignments of one key's value to the names it resolves to. *)
Lemma fold_dict_set_get {V : Type} (names : list string) (v : V) (f : string) :
  forall d : list (string * V),
    (In f names ->
     dict_get (fold_left (fun nv field => dict_set nv field v) names d) f
     = Some v)
    /\ (~ In f names ->
        dict_get (fold_left (fun nv field => dict_set nv field v) names d) f
        = dict_get d f).
Proof.
  induction names as [|n names IH]; intros d; cbn [fold_left In].
  - split; [contradiction | reflexivity].
  - destruct (IH (dict_set d n v)) as [IHin IHout].
    destruct (in_dec String.string_dec f names) as [Hin|Hnin].
    + split; [intros _; now apply IHin | tauto].
    + split.
      * intros [->|Hin]; [|contradiction].
        rewrite (IHout Hnin). apply dict_get_set_eq.
      * intros Hno. rewrite (IHout Hnin). apply dict_get_set_ne. tauto.
Qed.

Lemma fold_dict_set_keys {V : Type} (names : list string) (v : V) (f : string) :
  forall d : list (string * V),
    In f (map fst (fold_left (fun nv field => dict_set nv field v) names d))
    <-> In f names \/ In f (map fst d).
Proof.
  induction names as [|n names IH]; intros d; cbn [fold_left In].
  - tauto.
  - rewrite IH, dict_set_keys. intuition.
Qed.

Lemma fold_dict_set_NoDup {V : Type} (names : list string) (v : V) :
  forall d : list (string * V),
    NoDup (map fst d) ->
    NoDup (map fst (fold_left (fun nv field => dict_set nv field v) names d)).
Proof.
  induction names as [|n names IH]; intros d Hnd; cbn [fold_left];
    [exact Hnd|].
  now apply IH, dict_set_NoDup.
Qed.

Lemma for_each_app {A B : Type} (f : B -> A -> result B) (l1 l2 : list A) :
  forall acc : B,
    for_each (l1 ++ l2) acc f
    = let* acc' := for_each l1 acc f in for_each l2 acc' f.
Proof.
  induction l1 as [|a l1 IH]; intros acc; [reflexivity|].
  cbn [app for_each]. destruct (f acc a); [|reflexivity]. cbn [bind]. apply IH.
Qed.

(** ** Entity records *)

Section EntityItems.

Variable rewrite : value -> result value.
Variable resolve : string -> result (list string).

Lemma entity_items_step (acc : list (string * value)) (k : string) (v : value)
    (d : list (string * value)) (nv : list (string * value)) :
  for_each ((k, v) :: d) acc
    (fun new_values kv =>
       let* v' := rewrite (snd kv) in
       let* names := resolve (fst kv) in
       Ok (fold_left (fun nv field => dict_set nv field v') names new_values))
  = Ok nv ->
  exists v' names,
    rewrite v = Ok v' /\ resolve k = Ok names
    /\ for_each d (fold_left (fun nv field => dict_set nv field v') names acc)
         (fun new_values kv =>
            let* v' := rewrite (snd kv) in
            let* names := resolve (fst kv) in
            Ok (fold_left (fun nv field => dict_set nv field v') names
                          new_values))
       = Ok nv.
Proof.
  cbn [for_each fst snd].
  destruct (rewrite v) as [v'|e]; [|discriminate].
  destruct (resolve k) as [names|e]; [|discriminate].
  cbn [bind]. intros H. now exists v', names.
Qed.

Lemma entity_items_keys (d : list (string * value)) :
  forall acc nv : list (string * value),
    for_each d acc
      (fun new_values kv =>
         let* v' := rewrite (snd kv) in
         let* names := resolve (fst kv) in
         Ok (fold_left (fun nv field => dict_set nv field v') names new_values))
    = Ok nv ->
    forall f : string,
      In f (map fst nv)
      <-> In f (map fst acc)
          \/ exists k names,
               In k (map fst d) /\ resolve k = Ok names /\ In f names.
Proof.
  induction d as [|[k v] d IH]; intros acc nv H f.
  - injection H as <-. split; [auto|]. intros [?|(k & names & [] & _)]; auto.
  - apply entity_items_step in H as (v' & names & Hv & Hk & H).
    rewrite (IH _ _ H f), fold_dict_set_keys. cbn [map fst In]. split.
    + intros [[Hin|Hin]|(k' & names' & Hin & Hr & Hf)]; eauto 8.
    + intros [Hin|(k' & names' & [<-|Hin] & Hr & Hf)]; eauto 8.
      left. left. congruence.
Qed.

Lemma entity_items_get (d : list (string * value)) (f : string) :
  forall acc nv : list (string * value),
    for_each d acc
      (fun new_values kv =>
         let* v' := rewrite (snd kv) in
         let* names := resolve (fst kv) in
         Ok (fold_left (fun nv field => dict_set nv field v') names new_values))
    = Ok nv ->
    (forall k names, In k (map fst d) -> resolve k = Ok names -> ~ In f names) ->
    dict_get nv f = dict_get acc f.
Proof.
  induction d as [|[k v] d IH]; intros acc nv H Hother.
  - now injection H as <-.
  - apply entity_items_step in H as (v' & names & Hv & Hk & H).
    rewrite (IH _ _ H).
    + apply fold_dict_set_get. apply (Hother k); [now left | exact Hk].
    + intros k' names' Hin. apply Hother. now right.
Qed.

Lemma entity_items_NoDup (d : list (string * value)) :
  forall acc nv : list (string * value),
    for_each d acc
      (fun new_values kv =>
         let* v' := rewrite (snd kv) in
         let* names := resolve (fst kv) in
         Ok (fold_left (fun nv field => dict_set nv field v') names new_values))
    = Ok nv ->
    NoDup (map fst acc) -> NoDup (map fst nv).
Proof.
  induction d as [|[k v] d IH]; intros acc nv H Hnd.
  - now injection H as <-.
  - apply entity_items_step in H as (v' & names & Hv & Hk & H).
    apply (IH _ _ H). now apply fold_dict_set_NoDup.
Qed.

End EntityItems.

(** X13. The keys of a rewritten entity record are exactly the names its
    keys resolve to: no key is repeated, none is invented, and every name
    a key resolves to is present. *)
Theorem entity_record_keys (self : Schema) (d : list (string * value))
    (entity_type : option string) (E : string) (o : options) (y : value) :
  recognised_type self entity_type d = Ok (Some E) ->
  resolve_structure self (VDict d) entity_type o = Ok y ->
  exists nv : list (string * value),
    y = VDict nv
    /\ NoDup (map fst nv)
    /\ forall f : string,
        In f (map fst nv)
        <-> exists k names,
              In k (map fst d)
              /\ resolve_field self E (spec_str k) o = Ok names
              /\ In f names.
Proof.
  intros Hrec. rewrite (resolve_structure_entity _ _ _ _ _ Hrec).
  unfold rewrite_entity_items.
  destruct (for_each d [] _) as [nv|e] eqn:H; [|discriminate].
  intros [= <-]. exists nv. split; [reflexivity|]. split.
  - apply (entity_items_NoDup
             (fun v => resolve_structure self v None default_options)
             (fun k => resolve_field self E (spec_str k) o) _ _ _ H).
    constructor.
  - intros f.
    rewrite (entity_items_keys
               (fun v => resolve_structure self v None default_options)
               (fun k => resolve_field self E (spec_str k) o) _ _ _ H f).
    cbn [map In]. tauto.
Qed.

Lemma entity_record_keys_witness :
  exists nv : list (string * value),
    resolve_structure tag_store
      (VDict [("type", VStr "Shot"); ("#both", VInt 1); ("#nothing", VInt 2)])
      None default_options = Ok (VDict nv)
    /\ map fst nv = ["type"; "code"; "sg_status_list"].
Proof.
  destruct (entity_record_keys tag_store
              [("type", VStr "Shot"); ("#both", VInt 1); ("#nothing", VInt 2)]
              None "Shot" default_options
              (VDict [("type", VStr "Shot"); ("code", VInt 1);
                      ("sg_status_list", VInt 1)]) eq_refl eq_refl)
    as (nv & [= <-] & _).
  eexists. split; reflexivity.
Defined.

(** X14. When several keys of an entity record resolve to one name, the
    last of them in iteration order gives the value: the name maps to the
    rewritten value of a key that resolves to it and after which no key
    resolves to it. *)
Theorem later_key_wins (self : Schema) (d1 d2 : list (string * value))
    (k : string) (v : value) (entity_type : option string) (E : string)
    (o : options) (nv : list (string * value)) (names : list string)
    (f : string) :
  recognised_type self entity_type (d1 ++ (k, v) :: d2) = Ok (Some E) ->
  resolve_structure self (VDict (d1 ++ (k, v) :: d2)) entity_type o
  = Ok (VDict nv) ->
  resolve_field self E (spec_str k) o = Ok names ->
  In f names ->
  (forall k' names', In k' (map fst d2) ->
                     resolve_field self E (spec_str k') o = Ok names' ->
                     ~ In f names') ->
  exists v', resolve_structure self v None default_options = Ok v'
             /\ dict_get nv f = Some v'.
Proof.
  intros Hrec Hres Hk Hf Hlater.
  rewrite (resolve_structure_entity _ _ _ _ _ Hrec) in Hres.
  unfold rewrite_entity_items in Hres. rewrite for_each_app in Hres.
  destruct (for_each d1 [] _) as [acc|e]; [|discriminate].
  cbn [bind] in Hres.
  destruct (for_each ((k, v) :: d2) acc _) as [nv'|e] eqn:H; [|discriminate].
  injection Hres as ->.
  apply (entity_items_step
           (fun v => resolve_structure self v None default_options)
           (fun k => resolve_field self E (spec_str k) o))
    in H as (v' & names' & Hv & Hk' & H).
  rewrite Hk in Hk'. injection Hk' as <-.
  exists v'. split; [exact Hv|].
  rewrite (entity_items_get
             (fun v => resolve_structure self v None default_options)
             (fun k => resolve_field self E (spec_str k) o) _ _ _ _ H Hlater).
  now apply fold_dict_set_get.
Qed.

Lemma later_key_wins_witness :
  exists v', resolve_structure tag_store (VStr "fin") None default_options
             = Ok v'
             /\ dict_get [("type", VStr "Shot"); ("sg_status_list", VStr "fin")]
                  "sg_status_list" = Some v'.
Proof.
  apply (later_key_wins tag_store
           [("type", VStr "Shot"); ("status", VStr "ip"); ("#nothing", VInt 0)]
           [] "sg_status_list" (VStr "fin") None "Shot" default_options
           [("type", VStr "Shot"); ("sg_status_list", VStr "fin")]
           ["sg_status_list"]); try reflexivity.
  - now left.
  - intros k' names' [].
Defined.

(** X15. A key of an entity record that resolves to no name, such as an
    undefined tag, is left out of the result: once its value has been
    rewritten without exception, the record is rewritten as if the item
    were not there. *)
Theorem unresolved_key_is_dropped (self : Schema)
    (d1 d2 : list (string * value)) (k : string) (v v' : value)
    (entity_type : option string) (E : string) (o : options) :
  recognised_type self entity_type (d1 ++ (k, v) :: d2) = Ok (Some E) ->
  resolve_field self E (spec_str k) o = Ok [] ->
  resolve_structure self v None default_options = Ok v' ->
  resolve_structure self (VDict (d1 ++ (k, v) :: d2)) entity_type o
  = resolve_structure self (VDict (d1 ++ d2)) entity_type o.
Proof.
  intros Hrec Hk Hv.
  assert (Hne : k <> "type").
  { intros ->. destruct (recognised_type_known _ _ _ _ Hrec) as [entity HE].
    rewrite (resolve_field_structural self E "type" entity o HE eq_refl) in Hk.
    discriminate. }
  assert (Hrec' : recognised_type self entity_type (d1 ++ d2) = Ok (Some E)).
  { unfold recognised_type in *.
    now rewrite (dict_get_app_ne d1 d2 k "type" v Hne) in Hrec. }
  rewrite (resolve_structure_entity _ _ _ _ _ Hrec),
    (resolve_structure_entity _ _ _ _ _ Hrec').
  unfold rewrite_entity_items. rewrite !for_each_app.
  destruct (for_each d1 [] _) as [acc|e]; [|reflexivity].
  cbn [bind for_each fst snd]. now rewrite Hv, Hk.
Qed.

Lemma unresolved_key_is_dropped_witness :
  resolve_structure tag_store (VDict colliding_record) None default_options
  = Ok (VDict [("type", VStr "Shot"); ("sg_status_list", VStr "fin")]).
Proof.
  refine (eq_trans
            (unresolved_key_is_dropped tag_store
               [("type", VStr "Shot"); ("status", VStr "ip")]
               [("sg_status_list", VStr "fin")] "#nothing" (VInt 0) (VInt 0)
               None "Shot" default_options eq_refl eq_refl eq_refl) _).
  reflexivity.
Defined.

(** ** Other dictionaries *)

Lemma plain_items_shape (rewrite : value -> result value)
    (d : list (string * value)) :
  forall acc nv : list (string * value),
    NoDup (map fst acc ++ map fst d) ->
    for_each d acc
      (fun new_values kv =>
         let* v' := rewrite (snd kv) in Ok (dict_set new_values (fst kv) v'))
    = Ok nv ->
    exists rest : list (string * value),
      nv = acc ++ rest
      /\ Forall2 (fun kv kv' => fst kv' = fst kv /\ rewrite (snd kv) = Ok (snd kv'))
                 d rest.
Proof.
  induction d as [|[k v] d IH]; intros acc nv Hnd; cbn [for_each fst snd].
  - intros [= <-]. exists []. split; [now rewrite app_nil_r | constructor].
  - destruct (rewrite v) as [v'|e] eqn:Hv; [|discriminate]. cbn [bind].
    rewrite dict_set_fresh.
    + intros H. apply IH in H as (rest & -> & Hrest).
      * exists ((k, v') :: rest). split; [now rewrite <- app_assoc|].
        constructor; [split; [reflexivity | exact Hv] | exact Hrest].
      * rewrite map_app, <- app_assoc. exact Hnd.
    + apply NoDup_app in Hnd as (_ & Hdisj & _).
      intros Hin. apply (Hdisj k); [now apply list_elem_of_In|].
      cbn. left.
Qed.

(** X16. A dictionary that is not recognised as an entity record keeps
    its keys, in order, and has each value rewritten with the caller's
    options. *)
Theorem plain_dictionary_keeps_keys (self : Schema)
    (d : list (string * value)) (entity_type : option string) (o : options)
    (y : value) :
  recognised_type self entity_type d = Ok None ->
  NoDup (map fst d) ->
  resolve_structure self (VDict d) entity_type o = Ok y ->
  exists nv : list (string * value),
    y = VDict nv
    /\ map fst nv = map fst d
    /\ Forall2 (fun kv kv' => resolve_structure self (snd kv) None o
                               = Ok (snd kv')) d nv.
Proof.
  intros Hrec Hnd. rewrite (resolve_structure_plain _ _ _ _ Hrec).
  unfold rewrite_plain_items.
  destruct (for_each d [] _) as [nv|e] eqn:H; [|discriminate].
  intros [= <-]. exists nv. split; [reflexivity|].
  apply (plain_items_shape (fun v => resolve_structure self v None o))
    in H as (rest & -> & Hrest); [|exact Hnd].
  cbn [app]. clear -Hrest. split.
  - induction Hrest as [|kv kv' d rest [Hk _] _ IH]; [reflexivity|].
    cbn [map]. now rewrite Hk, IH.
  - induction Hrest as [|kv kv' d rest [_ Hv] _ IH]; constructor; assumption.
Qed.

Lemma plain_dictionary_keeps_keys_witness :
  exists nv : list (string * value),
    VDict [("sg_status", VList [VDict [("type", VStr "Shot");
                                       ("sg_status_list", VStr "ip")]]);
           ("$x", VInt 1)] = VDict nv
    /\ map fst nv = ["sg_status"; "$x"]
    /\ Forall2 (fun kv kv' => resolve_structure shot_store (snd kv) None
                                default_options = Ok (snd kv'))
               [("sg_status", VList [shot_record]); ("$x", VInt 1)] nv.
Proof.
  apply (plain_dictionary_keeps_keys shot_store
           [("sg_status", VList [shot_record]); ("$x", VInt 1)]
           None default_options); try reflexivity.
  exact (bool_decide_unpack (NoDup ["sg_status"; "$x"]) I).
Defined.

(** X17. An entity type given by the caller that is not empty and not in
    the store turns the rewriting of the keys off, even for a record
    whose own ["type"] is known to the store: the record's ["type"] is
    consulted only when no entity type, or the empty one, is given. *)
Theorem unknown_override_turns_rewriting_off (self : Schema)
    (d : list (string * value)) (E : string) (o : options) (y : value) :
  E <> EmptyString ->
  entities self !! E = None ->
  NoDup (map fst d) ->
  resolve_structure self (VDict d) (Some E) o = Ok y ->
  exists nv : list (string * value),
    y = VDict nv /\ map fst nv = map fst d.
Proof.
  intros HE Hunknown Hnd Hres.
  destruct (plain_dictionary_keeps_keys self d (Some E) o y)
    as (nv & -> & Hkeys & _); eauto.
  unfold recognised_type. apply String.eqb_neq in HE. rewrite HE.
  cbn [truthy]. rewrite HE. cbn [negb]. unfold has_key. now rewrite Hunknown.
Qed.

Lemma unknown_override_turns_rewriting_off_witness :
  exists nv : list (string * value),
    VDict [("type", VStr "Shot"); ("sg_status", VStr "ip")] = VDict nv
    /\ map fst nv = ["type"; "sg_status"].
Proof.
  apply (unknown_override_turns_rewriting_off shot_store
           [("type", VStr "Shot"); ("sg_status", VStr "ip")] "Asset"
           default_options); try reflexivity; try discriminate.
  exact (bool_decide_unpack (NoDup ["type"; "sg_status"]) I).
Defined.

(** ** Strict mode in structures *)

Lemma for_each_impl_in {A B : Type} (f g : B -> A -> result B) (l : list A) :
  (forall acc a r, In a l -> f acc a = Ok r -> g acc a = Ok r) ->
  forall acc r, for_each l acc f = Ok r -> for_each l acc g = Ok r.
Proof.
  induction l as [|a l IH]; intros Hfg acc r; [auto|].
  cbn [for_each]. destruct (f acc a) as [acc'|e] eqn:Hf; [|discriminate].
  rewrite (Hfg _ _ _ (or_introl eq_refl) Hf). cbn [bind].
  apply IH. intros acc0 a0 r0 Hin. apply Hfg. now right.
Qed.

Lemma rewrite_elements_impl (f g : value -> result value) (l : list value) :
  Forall (fun a => forall b, f a = Ok b -> g a = Ok b) l ->
  forall l', rewrite_elements f l = Ok l' -> rewrite_elements g l = Ok l'.
Proof.
  induction 1 as [|a l Ha _ IH]; intros l'; [auto|].
  cbn [rewrite_elements].
  destruct (f a) as [b|e] eqn:Hf; [|discriminate].
  rewrite (Ha _ eq_refl). cbn [bind].
  destruct (rewrite_elements f l) as [m|e] eqn:Hl; [|discriminate].
  now rewrite (IH _ eq_refl).
Qed.

(** X18. Strict mode only refuses in structures too: whatever
    [resolve_structure] returns under strict options it returns under
    the same options with [strict] unset. *)
Theorem resolve_structure_lenient (self : Schema) (x : value) :
  forall (entity_type : option string) (o : options) (y : value),
    resolve_structure self x entity_type o = Ok y ->
    resolve_structure self x entity_type (lenient o) = Ok y.
Proof.
  induction x as [| b | z | s | l IH | l IH | d IH] using value_nested_ind;
    intros entity_type o y; try (intros H; exact H).
  - rewrite !resolve_structure_list.
    destruct (rewrite_elements _ l) as [l'|e] eqn:Hl; [|discriminate].
    intros [= <-].
    rewrite (rewrite_elements_impl
               (fun y => resolve_structure self y None o)
               (fun y => resolve_structure self y None (lenient o)) l)
      with (l' := l'); [reflexivity | | exact Hl].
    apply Forall_forall. rewrite Forall_forall in IH.
    intros a Ha b. now apply IH.
  - rewrite !resolve_structure_tuple.
    destruct (rewrite_elements _ l) as [l'|e] eqn:Hl; [|discriminate].
    intros [= <-].
    rewrite (rewrite_elements_impl
               (fun y => resolve_structure self y None o)
               (fun y => resolve_structure self y None (lenient o)) l)
      with (l' := l'); [reflexivity | | exact Hl].
    apply Forall_forall. rewrite Forall_forall in IH.
    intros a Ha b. now apply IH.
  - destruct (recognised_type self entity_type d) as [[E|]|e] eqn:Hrec.
    + rewrite !(resolve_structure_entity _ _ _ _ _ Hrec).
      unfold rewrite_entity_items.
      destruct (for_each d [] _) as [nv|e] eqn:Hd; [|discriminate].
      intros [= <-].
      assert (H : for_each d []
                    (fun new_values kv =>
                       let* v' := resolve_structure self (snd kv) None
                                    default_options in
                       let* names := resolve_field self E (spec_str (fst kv))
                                       (lenient o) in
                       Ok (fold_left (fun nv field => dict_set nv field v')
                                     names new_values))
                  = Ok nv).
      { refine (for_each_impl _ _ _ _ _ _ Hd). intros acc kv r.
        destruct (resolve_structure self (snd kv) None default_options);
          [|discriminate].
        cbn [bind].
        destruct (resolve_field self E (spec_str (fst kv)) o) as [names|?]
          eqn:Hn; [|discriminate].
        now rewrite (resolve_field_lenient _ _ _ _ _ Hn). }
      now rewrite H.
    + rewrite !(resolve_structure_plain _ _ _ _ Hrec).
      unfold rewrite_plain_items.
      destruct (for_each d [] _) as [nv|e] eqn:Hd; [|discriminate].
      intros [= <-].
      assert (H : for_each d []
                    (fun new_values kv =>
                       let* v' := resolve_structure self (snd kv) None
                                    (lenient o) in
                       Ok (dict_set new_values (fst kv) v'))
                  = Ok nv).
      { refine (for_each_impl_in _ _ _ _ _ _ Hd). intros acc kv r Hin.
        destruct (resolve_structure self (snd kv) None o) as [v'|?] eqn:Hv;
          [|discriminate].
        rewrite Forall_forall in IH.
        now rewrite (IH kv (proj2 (list_elem_of_In _ _) Hin) _ _ _ Hv). }
      now rewrite H.
    + rewrite (resolve_structure_unrecognisable _ _ _ _ _ Hrec). discriminate.
Qed.

Lemma resolve_structure_lenient_witness :
  resolve_structure shot_store physical_record None (lenient strict_options)
  = Ok physical_record.
Proof.
  apply (resolve_structure_lenient shot_store physical_record None
           strict_options).
  reflexivity.
Defined.

(** * Properties of the store's construction *)

(** ** Get or make *)

(** X19. [_get_or_make_entity] returns the entity the store has under the
    name and leaves the store as it is; only when there is none does it
    add the new entity, under that name alone and without touching the
    aliases or the tags. Either way the name is known afterwards, and a
    second call returns the same entity and changes nothing. *)
Theorem get_or_make_entity_spec (Entity_init : Schema -> string -> Entity)
    (self : Schema) (name : string) :
  let entity := fst (_get_or_make_entity Entity_init self name) in
  let self' := snd (_get_or_make_entity Entity_init self name) in
  entities self' !! name = Some entity
  /\ (forall e0, entities self !! name = Some e0 -> entity = e0 /\ self' = self)
  /\ (forall n, n <> name -> entities self' !! n = entities self !! n)
  /\ entity_aliases self' = entity_aliases self
  /\ entity_tags self' = entity_tags self
  /\ _get_or_make_entity Entity_init self' name = (entity, self').
Proof.
  unfold _get_or_make_entity.
  destruct (entities self !! name) as [e|] eqn:He; cbn [fst snd].
  - rewrite He. split; [reflexivity|]. split; [now intros e0 [= <-]|].
    repeat split; reflexivity.
  - cbn [entities entity_aliases entity_tags].
    rewrite lookup_insert_eq. split; [reflexivity|].
    split; [discriminate|]. split; [|repeat split; reflexivity].
    intros n Hn. now apply lookup_insert_ne.
Qed.

Lemma has_key_get_or_make (Entity_init : Schema -> string -> Entity)
    (self : Schema) (name s : string) :
  s <> name ->
  has_key (entities (snd (_get_or_make_entity Entity_init self name))) s
  = has_key (entities self) s.
Proof.
  intros Hs. unfold has_key.
  destruct (get_or_make_entity_spec Entity_init self name)
    as (_ & _ & Hother & _).
  cbn zeta in Hother. now rewrite (Hother s Hs).
Qed.

(** X20. After [_get_or_make_entity] the name, if alphanumeric, resolves
    to itself as an entity spec under all flags, strict mode included,
    even where it resolved to an alias target before; every other entity
    spec resolves as before, and so does every field spec against an
    entity type the store already had. *)
Theorem get_or_make_entity_resolution
    (Entity_init : Schema -> string -> Entity) (self : Schema)
    (name : string) (implicit strict : bool) :
  let self' := snd (_get_or_make_entity Entity_init self name) in
  (starts_alnum name = true ->
   resolve_entity self' name implicit strict = Ok [name])
  /\ (forall s, s <> name ->
                resolve_entity self' s implicit strict
                = resolve_entity self s implicit strict)
  /\ (forall E s o, has_key (entities self) E = true ->
                    _resolve_field self' E s o = _resolve_field self E s o).
Proof.
  intros self'.
  destruct (get_or_make_entity_spec Entity_init self name)
    as (Hname & Hsame & Hother & Hal & Htags & _).
  cbn zeta in *. fold self' in Hname, Hsame, Hother, Hal, Htags.
  split; [|split].
  - intros Halnum. rewrite (resolve_entity_default self' name _ _ Halnum).
    unfold has_key. now rewrite Hname.
  - intros s Hs. unfold resolve_entity. rewrite Hal, Htags.
    unfold self'. now rewrite (has_key_get_or_make Entity_init self name s Hs).
  - intros E s o HE. unfold _resolve_field.
    destruct (String.eqb_spec E name) as [->|Hne].
    + unfold has_key in HE.
      destruct (entities self !! name) as [e0|] eqn:H0; [|discriminate].
      destruct (Hsame e0 eq_refl) as [_ ->]. now rewrite H0.
    + now rewrite (Hother E Hne).
Qed.

(** Making the entity [S] hides the alias [S]. *)
Lemma get_or_make_entity_resolution_witness :
  resolve_entity aliased_store "S" true true = Ok ["Shot"]
  /\ resolve_entity (snd (_get_or_make_entity example_init aliased_store "S"))
       "S" true true = Ok ["S"]
  /\ _resolve_field (snd (_get_or_make_entity example_init aliased_store "S"))
       "Task" "#core" strict_options
     = _resolve_field aliased_store "Task" "#core" strict_options.
Proof.
  destruct (get_or_make_entity_resolution example_init aliased_store "S"
              true true) as (Hname & _ & Hfields).
  split; [reflexivity|]. split.
  - apply Hname. reflexivity.
  - apply Hfields. reflexivity.
Defined.

Lemma get_or_make_entity_spec_witness :
  _get_or_make_entity example_init aliased_store "Shot"
  = (shot_entity, aliased_store)
  /\ entities (snd (_get_or_make_entity example_init aliased_store "Asset"))
       !! "Asset" = Some no_entity.
Proof.
  destruct (get_or_make_entity_spec example_init aliased_store "Shot")
    as (_ & Hsame & _).
  destruct (get_or_make_entity_spec example_init aliased_store "Asset")
    as (Hnew & _).
  split; [|exact Hnew].
  destruct (Hsame shot_entity eq_refl) as [He Hs].
  now apply injective_projections.
Defined.

(** ** Loading a document *)

Section LoadingProperties.

Variable Entity_init : Schema -> string -> Entity.
Variable Entity_setstate : Schema -> string -> value -> Schema * option string.
Variable merge_update_aliases :
  gmap string string -> value -> gmap string string * option string.
Variable merge_update_tags :
  gmap string (list string) -> value
  -> gmap string (list string) * option string.




Lemma filter_all {A : Type} (f : A -> bool) (l : list A) :
  (forall a, In a l -> f a = true) -> List.filter f l = l.
Proof.
  induction l as [|a l IH]; intros H; [reflexivity|].
  cbn [List.filter]. rewrite (H a (or_introl eq_refl)).
  f_equal. apply IH. intros b Hb. apply H. now right.
Qed.

Lemma filter_none {A : Type} (f : A -> bool) (l : list A) :
  (forall a, In a l -> f a = false) -> List.filter f l = [].
Proof.
  induction l as [|a l IH]; intros H; [reflexivity|].
  cbn [List.filter]. rewrite (H a (or_introl eq_refl)).
  apply IH. intros b Hb. apply H. now right.
Qed.


(** X22. A non-empty document all of whose top-level keys start with an
    upper-case letter is loaded exactly as the document that holds it
    under the one key ["entities"]. *)
Theorem setstate_direct_entities (self : Schema)
    (raw_schema : list (string * value)) :
  raw_schema <> [] ->
  (forall k, In k (map fst raw_schema) -> head_isupper k = true) ->
  __setstate__ Entity_init Entity_setstate merge_update_aliases
    merge_update_tags self raw_schema
  = __setstate__ Entity_init Entity_setstate merge_update_aliases
      merge_update_tags self [("entities", VDict raw_schema)].
Proof.
  intros Hne Hall. unfold __setstate__ at 1.
  rewrite filter_all.
  - destruct raw_schema as [|kv r]; [contradiction|].
    cbn [length Nat.eqb]. now rewrite Nat.eqb_refl.
  - intros kv Hkv. apply Hall, in_map_iff. now exists kv.
Qed.

Lemma dict_remove_In {V : Type} (d : list (string * V)) (k k' : string) :
  In k' (map fst (dict_remove d k)) <-> In k' (map fst d) /\ k' <> k.
Proof.
  unfold dict_remove. rewrite !in_map_iff. split.
  - intros (kv & <- & [Hin Hne]%filter_In). split; [now exists kv|].
    apply negb_true_iff, String.eqb_neq in Hne. exact Hne.
  - intros [(kv & <- & Hin) Hne]. exists kv. split; [reflexivity|].
    apply filter_In. split; [exact Hin|].
    now apply negb_true_iff, String.eqb_neq.
Qed.


End LoadingProperties.


Lemma setstate_direct_entities_witness :
  __setstate__ example_init example_setstate example_merge example_merge
    empty_schema direct_document
  = __setstate__ example_init example_setstate example_merge example_merge
      empty_schema [("entities", VDict direct_document)].
Proof.
  apply setstate_direct_entities; [discriminate|].
  intros k [<-|[<-|[]]]; reflexivity.
Defined.


(** ** Documents that pass the validation *)

Lemma schema_key_lower (k : string) :
  schema_key k = true -> head_isupper k = false.
Proof.
  unfold schema_key.
  intros [[->%String.eqb_eq | ->%String.eqb_eq]%orb_true_iff
         | ->%String.eqb_eq]%orb_true_iff; reflexivity.
Qed.

Lemma dict_get_In {V : Type} (d : list (string * V)) (k : string) (v : V) :
  dict_get d k = Some v -> In (k, v) d.
Proof.
  induction d as [|[k' v'] d IH]; [discriminate|]. cbn [dict_get].
  destruct (String.eqb_spec k' k) as [->|_].
  - intros [= ->]. now left.
  - intros H. right. now apply IH.
Qed.

Section Validation.

Variable Entity_init : Schema -> string -> Entity.
Variable Entity_setstate : Schema -> string -> value -> Schema * option string.
Variable merge_update_aliases :
  gmap string string -> value -> gmap string string * option string.
Variable merge_update_tags :
  gmap string (list string) -> value
  -> gmap string (list string) * option string.

Lemma load_entities_raises (items : list (string * value)) :
  forall (self : Schema) (e : load_exn),
    snd (load_entities Entity_init Entity_setstate self items) = Some e ->
    exists what, e = collaborator_raised what.
Proof.
  induction items as [|[n v] items IH]; intros self e; [discriminate|].
  cbn [load_entities].
  destruct (Entity_setstate _ n v) as [self2 [what|]].
  - intros [= <-]. eauto.
  - apply IH.
Qed.

(** X24. A document whose top-level keys are among ["entities"],
    ["entity_aliases"] and ["entity_tags"], and whose ["entities"] entry,
    if any, is a dictionary, never fails the validation of
    [__setstate__]: an exception can only come from a method of an entity
    or from [merge_update]. *)
Theorem setstate_accepts_known_keys (self : Schema)
    (raw_schema : list (string * value)) (e : load_exn) :
  (forall k, In k (map fst raw_schema) -> schema_key k = true) ->
  (forall v, dict_get raw_schema "entities" = Some v -> exists d, v = VDict d) ->
  snd (__setstate__ Entity_init Entity_setstate merge_update_aliases
         merge_update_tags self raw_schema) = Some e ->
  exists what, e = collaborator_raised what.
Proof.
  intros Hkeys Hents. unfold __setstate__.
  rewrite filter_none.
  2:{ intros kv Hkv. apply schema_key_lower, Hkeys, in_map_iff. now exists kv. }
  cbn [length Nat.eqb]. unfold load_tables, dict_pop.
  assert (Hleft : dict_remove
                    (dict_remove (dict_remove raw_schema "entities")
                                 "entity_aliases") "entity_tags" = []).
  { destruct (dict_remove _ "entity_tags") as [|[k v] l] eqn:Hl; [reflexivity|].
    assert (Hin : In k (map fst (dict_remove
                                   (dict_remove
                                      (dict_remove raw_schema "entities")
                                      "entity_aliases") "entity_tags")))
      by (rewrite Hl; now left).
    rewrite !dict_remove_In in Hin. destruct Hin as [[[Hin He] Ha] Ht].
    specialize (Hkeys k Hin). unfold schema_key in Hkeys.
    apply String.eqb_neq in He, Ha, Ht. rewrite He, Ha, Ht in Hkeys.
    discriminate. }
  destruct (dict_get raw_schema "entities") as [v|] eqn:Hget.
  - destruct (Hents v eq_refl) as [d ->].
    destruct (load_entities _ _ self d) as [self1 [e1|]] eqn:Hload.
    + intros [= <-].
      apply (load_entities_raises d self). now rewrite Hload.
    + destruct (merge_update_aliases _ _) as [aliases' [w|]];
        [intros [= <-]; eauto|].
      destruct (merge_update_tags _ _) as [tags' [w|]];
        [intros [= <-]; eauto|].
      rewrite Hleft. discriminate.
  - cbn [load_entities].
    destruct (merge_update_aliases _ _) as [aliases' [w|]];
      [intros [= <-]; eauto|].
    destruct (merge_update_tags _ _) as [tags' [w|]];
      [intros [= <-]; eauto|].
    rewrite Hleft. discriminate.
Qed.

End Validation.

Lemma setstate_accepts_known_keys_witness :
  snd (__setstate__ example_init example_setstate example_merge example_merge
         empty_schema
         [("entity_tags", VDict []); ("entities", VDict [("Shot", VInt 1)])])
  = Some (collaborator_raised "not a dict").
Proof.
  destruct (setstate_accepts_known_keys example_init example_setstate
              example_merge example_merge empty_schema
              [("entity_tags", VDict []); ("entities", VDict [("Shot", VInt 1)])]
              (collaborator_raised "not a dict")) as [what Hwhat];
    [| |reflexivity|reflexivity].
  - intros k [<-|[<-|[]]]; reflexivity.
  - intros v [= <-]. eauto.
Defined.

(** ** Dumping the state *)

(** X25. [__getstate__] lists only tables that are not empty, under the
    keys ["entities"], ["entity_aliases"] and ["entity_tags"]; so loading
    what it returns, into any store, never fails the validation of
    [__setstate__]. *)
Theorem getstate_passes_validation
    (Entity_init : Schema -> string -> Entity)
    (Entity_setstate : Schema -> string -> value -> Schema * option string)
    (merge_update_aliases :
       gmap string string -> value -> gmap string string * option string)
    (merge_update_tags :
       gmap string (list string) -> value
       -> gmap string (list string) * option string)
    (Entity_getstate : Entity -> value) (self self' : Schema) :
  (forall kv, In kv (__getstate__ Entity_getstate self) ->
              schema_key (fst kv) = true /\ truthy (snd kv) = true)
  /\ (forall e,
         snd (__setstate__ Entity_init Entity_setstate merge_update_aliases
                merge_update_tags self' (__getstate__ Entity_getstate self))
         = Some e ->
         exists what, e = collaborator_raised what).
Proof.
  assert (Hentries : forall kv, In kv (__getstate__ Entity_getstate self) ->
                       schema_key (fst kv) = true /\ truthy (snd kv) = true
                       /\ exists d, snd kv = VDict d).
  { unfold __getstate__. intros kv [Hin Hv]%filter_In.
    split; [|split; [exact Hv|]];
      destruct Hin as [<-|[<-|[<-|[]]]]; try reflexivity; cbn [snd]; eauto. }
  split.
  - intros kv Hkv. destruct (Hentries kv Hkv) as (? & ? & _). auto.
  - intros e. apply setstate_accepts_known_keys.
    + intros k (kv & <- & Hkv)%in_map_iff. now apply Hentries.
    + intros v Hv%dict_get_In. destruct (Hentries _ Hv) as (_ & _ & Hd).
      exact Hd.
Qed.

Lemma getstate_passes_validation_witness :
  map fst (__getstate__ example_getstate aliased_store)
  = ["entities"; "entity_aliases"; "entity_tags"]
  /\ __getstate__ example_getstate empty_schema = []
  /\ forall e,
       snd (__setstate__ example_init example_setstate example_merge
              example_merge empty_schema
              (__getstate__ example_getstate aliased_store)) = Some e ->
       exists what, e = collaborator_raised what.
Proof.
  split; [vm_compute; reflexivity|]. split; [vm_compute; reflexivity|].
  apply (getstate_passes_validation example_init example_setstate
           example_merge example_merge example_getstate aliased_store
           empty_schema).
Defined.

(** ** Loading a raw schema *)

Section RawProperties.

Variable Entity_init : Schema -> string -> Entity.
Variable Entity_reduce_raw :
  SchemaObject -> string -> value -> SchemaObject * option string.
Variable Entity_get_or_make_field :
  SchemaObject -> string -> string -> SchemaObject * option string.
Variable Field_reduce_raw :
  SchemaObject -> string -> string -> value -> SchemaObject * option string.

(** X26. When one of the keys ["raw_entities"], ["raw_fields"] and
    ["raw_private"] is missing from the document, [load_raw] raises the
    missing-keys error naming exactly the missing ones, in that order,
    and leaves the schema object as it was. *)
Theorem load_raw_missing_keys (self : SchemaObject)
    (raw : list (string * value)) (k : string) :
  In k raw_keys ->
  dict_get raw k = None ->
  load_raw Entity_init Entity_reduce_raw Entity_get_or_make_field
    Field_reduce_raw self raw
  = (self,
     Some (missing_keys_in_raw_schema
             (List.filter (fun k => negb (dict_has raw k)) raw_keys)))
  /\ In k (List.filter (fun k => negb (dict_has raw k)) raw_keys).
Proof.
  intros Hk Hnone.
  assert (Hin : In k (List.filter (fun k => negb (dict_has raw k)) raw_keys)).
  { apply filter_In. split; [exact Hk|]. unfold dict_has. now rewrite Hnone. }
  split; [|exact Hin].
  unfold load_raw.
  destruct (List.filter (fun k => negb (dict_has raw k)) raw_keys);
    [contradiction | reflexivity].
Qed.

(** X27. [load_raw] reads the three required entries of the document and
    nothing else: two documents that agree on them are loaded alike, so
    further keys are accepted and ignored, and the extra-keys error is
    never raised. *)
Theorem load_raw_ignores_other_keys (self : SchemaObject)
    (raw raw' : list (string * value)) :
  (forall k, In k raw_keys -> dict_get raw k = dict_get raw' k) ->
  load_raw Entity_init Entity_reduce_raw Entity_get_or_make_field
    Field_reduce_raw self raw
  = load_raw Entity_init Entity_reduce_raw Entity_get_or_make_field
      Field_reduce_raw self raw'
  /\ forall keys,
      snd (load_raw Entity_init Entity_reduce_raw Entity_get_or_make_field
             Field_reduce_raw self raw)
      <> Some (extra_keys_in_raw_schema keys).
Proof.
  intros Hagree. split.
  - unfold load_raw, dict_has.
    rewrite <- !(Hagree "raw_entities"), <- !(Hagree "raw_fields"),
      <- !(Hagree "raw_private") by (cbn; auto).
    replace (List.filter
               (fun k => negb match dict_get raw' k with
                              | Some _ => true
                              | None => false
                              end) raw_keys)
      with (List.filter
              (fun k => negb match dict_get raw k with
                             | Some _ => true
                             | None => false
                             end) raw_keys); [reflexivity|].
    apply filter_ext_in. intros k Hk. now rewrite (Hagree k Hk).
  - intros keys. unfold load_raw.
    destruct (List.filter _ raw_keys); [|discriminate].
    cbn [raw_keys length Nat.eqb negb]. unfold _reduce_raw. cbn [_raw_entities].
    destruct (match dict_get raw "raw_entities" with
              | Some v => v
              | None => VNone
              end); try discriminate.
    assert (Hent : forall items s e,
               snd (reduce_entities Entity_init Entity_reduce_raw s items)
               = Some e -> e <> extra_keys_in_raw_schema keys).
    { induction items as [|[n v] items IH]; intros s e; [discriminate|].
      cbn [reduce_entities].
      destruct (Entity_reduce_raw _ n v) as [s' [w|]];
        [intros [= <-]; discriminate | apply IH]. }
    assert (Hfo : forall items n s e,
               snd (reduce_fields_of Entity_get_or_make_field Field_reduce_raw
                      s n items) = Some e ->
               e <> extra_keys_in_raw_schema keys).
    { induction items as [|[f v] items IH]; intros n s e; [discriminate|].
      cbn [reduce_fields_of].
      destruct (Entity_get_or_make_field s n f) as [s1 [w|]];
        [intros [= <-]; discriminate|].
      destruct (Field_reduce_raw s1 n f v) as [s2 [w|]];
        [intros [= <-]; discriminate | apply IH]. }
    assert (Hf : forall items s e,
               snd (reduce_fields Entity_init Entity_get_or_make_field
                      Field_reduce_raw s items) = Some e ->
               e <> extra_keys_in_raw_schema keys).
    { induction items as [|[n v] items IH]; intros s e; [discriminate|].
      cbn [reduce_fields]. destruct v; try (intros [= <-]; discriminate).
      destruct (reduce_fields_of _ _ _ n d0) as [s2 [e2|]] eqn:H2.
      - intros [= <-]. apply (Hfo d0 n (make_entity Entity_init s n)).
        now rewrite H2.
      - apply IH. }
    destruct (reduce_entities _ _ _ d) as [s1 [e1|]] eqn:H1.
    + intros [= ->]. apply (Hent d _ _ (f_equal snd H1)). reflexivity.
    + destruct (_raw_fields s1); try discriminate.
      intros H. apply (Hf _ _ _ H). reflexivity.
Qed.

End RawProperties.

Lemma load_raw_missing_keys_witness :
  load_raw example_init example_reduce_entity example_make_field
    example_reduce_field new_schema
    [("raw_fields", VDict []); ("raw_entity", VDict [])]
  = (new_schema,
     Some (missing_keys_in_raw_schema ["raw_entities"; "raw_private"])).
Proof.
  apply (load_raw_missing_keys example_init example_reduce_entity
           example_make_field example_reduce_field new_schema
           [("raw_fields", VDict []); ("raw_entity", VDict [])]
           "raw_private"); [cbn; auto | reflexivity].
Defined.

Lemma load_raw_ignores_other_keys_witness :
  load_raw example_init example_reduce_entity example_make_field
    example_reduce_field new_schema raw_document
  = load_raw example_init example_reduce_entity example_make_field
      example_reduce_field new_schema
      (dict_remove raw_document "comment")
  /\ snd (load_raw example_init example_reduce_entity example_make_field
            example_reduce_field new_schema raw_document) = None.
Proof.
  split; [|reflexivity].
  apply (load_raw_ignores_other_keys example_init example_reduce_entity
           example_make_field example_reduce_field new_schema raw_document
           (dict_remove raw_document "comment")).
  intros k [<-|[<-|[<-|[]]]]; reflexivity.
Defined.

Lemma sequences_are_rewritten_elementwise_witness :
  resolve_structure shot_store (VTuple [shot_record; VInt 3]) (Some "Shot")
    default_options
  = Ok (VTuple [VDict [("type", VStr "Shot"); ("sg_status_list", VStr "ip")];
                VInt 3]).
Proof.
  apply (proj2 (sequences_are_rewritten_elementwise shot_store
                  [shot_record; VInt 3] (Some "Shot") default_options _)).
  eexists. split; [reflexivity|]. repeat constructor.
Defined.
